(** * tiny-iterator: the iterator singleton of [src/lib/iterator.js]

    The module keeps one object, [internals], for the whole process.  Its
    four data properties ([items], [fn], [done], [isAborted]) are overwritten
    by every call of the exported [iterate]; the [next] and [abort] functions
    handed to the caller are closures over that one object and over the
    parameter [i] of the [internals.step] / [internals.abort] call that
    created them.

    Every call the module makes to a function of the caller ([internals.fn]
    at line 58, [internals.done] at line 125) is the last thing the calling
    function does, and so is every call between the module's own functions
    that leads there.  The embedding uses this: a function of the module is
    a state transformer that ends by returning, by throwing, or by naming the
    call it ends in.

    Arrays live in a heap, since [internals.items] is the caller's array and
    [done] gets that same array.  Indices are natural numbers: the limits of
    the number type and of array lengths are out of reach of the walks
    studied here.  The caller's functions are taken not to write to the
    array themselves and not to catch what the module throws. *)

From stdpp Require Import base option list gmap strings.
From Stdlib Require Import ZArith Lia.

Open Scope string_scope.
Open Scope list_scope.
Open Scope nat_scope.

(** ** Values *)

(** Address of an array object. *)
Definition loc := nat.

(** Number of the [internals.step] call that created a pair of closures. *)
Definition hid := nat.

(** The JavaScript values that reach the module.  Numbers are the integers
    (indices and the items of the examples).  [VNext h] is the function
    [next] created by the [h]-th call of [internals.step], [VAbort h] the
    function stored in its [abort] property; [VIterate] is the exported
    [iterate] and [VNoop] the module's [noop].  [VFun f] is a function
    written by the caller. *)
Inductive value : Type :=
| VUndefined
| VNull
| VBool (b : bool)
| VNum (n : Z)
| VNaN
| VStr (s : string)
| VArr (a : loc)
| VFun (f : nat)
| VNoop
| VIterate
| VNext (h : hid)
| VAbort (h : hid).

#[global] Instance value_eq_dec : EqDecision value.
Proof. solve_decision. Defined.

(** The [typeof] operator. *)
Definition typeof (v : value) : string :=
  match v with
  | VUndefined => "undefined"
  | VNull => "object"
  | VBool _ => "boolean"
  | VNum _ | VNaN => "number"
  | VStr _ => "string"
  | VArr _ => "object"
  | VFun _ | VNoop | VIterate | VNext _ | VAbort _ => "function"
  end.

(** [Array.isArray]. *)
Definition isArray (v : value) : bool :=
  match v with VArr _ => true | _ => false end.

(** Binding of the [n]-th parameter: a missing argument is [undefined]. *)
Definition param (n : nat) (args : list value) : value :=
  nth n args VUndefined.

(** ** Arrays *)

(** [arr[i]]: reading past the end gives [undefined]. *)
Definition array_get (arr : list value) (i : nat) : value :=
  default VUndefined (arr !! i).

(** [arr[i] = v]: inside the array the element is replaced; at or past the
    end the array grows to length [i + 1].  The positions skipped over are
    holes, which read as [undefined] and are kept as [VUndefined] here. *)
Definition array_set (arr : list value) (i : nat) (v : value) : list value :=
  if decide (i < length arr) then <[i := v]> arr
  else arr ++ replicate (i - length arr) VUndefined ++ [v].

(** ** The state *)

(** The data properties of [internals] (lines 12 to 48).  [items] is [null]
    or an array. *)
Record fields : Type := Fields {
  items : option loc;
  fn : value;
  done : value;
  isAborted : bool
}.

(** The variables captured by the closures of one [internals.step] call:
    [next] reads and increments the parameter [i] of [step] (line 75);
    [abort] has the parameter [i] of [internals.abort], which nothing
    assigns. *)
Record closure : Type := Closure {
  next_i : nat;
  abort_i : nat
}.

Record world : Type := World {
  self : fields;
  heap : gmap loc (list value);
  closures : list closure
}.

#[global] Instance fields_eq_dec : EqDecision fields.
Proof. solve_decision. Defined.
#[global] Instance closure_eq_dec : EqDecision closure.
Proof. solve_decision. Defined.
#[global] Instance world_eq_dec : EqDecision world.
Proof. solve_decision. Defined.

(** The module as loaded (lines 20, 28, 37, 48), over a heap of the caller. *)
Definition init (hp : gmap loc (list value)) : world :=
  World (Fields None VNull VNull false) hp [].

Definition set_items (o : option loc) (w : world) : world :=
  World (Fields o (fn (self w)) (done (self w)) (isAborted (self w)))
        (heap w) (closures w).
Definition set_fn (v : value) (w : world) : world :=
  World (Fields (items (self w)) v (done (self w)) (isAborted (self w)))
        (heap w) (closures w).
Definition set_done (v : value) (w : world) : world :=
  World (Fields (items (self w)) (fn (self w)) v (isAborted (self w)))
        (heap w) (closures w).
Definition set_isAborted (b : bool) (w : world) : world :=
  World (Fields (items (self w)) (fn (self w)) (done (self w)) b)
        (heap w) (closures w).
Definition set_heap (hp : gmap loc (list value)) (w : world) : world :=
  World (self w) hp (closures w).
Definition set_closures (cs : list closure) (w : world) : world :=
  World (self w) (heap w) cs.

(** The contents of the array at [a]. *)
Definition array_at (w : world) (a : loc) : list value :=
  default [] (heap w !! a).

(** ** Results *)

(** What can be thrown.  [TypeError] is the error built at lines 149, 165
    and 182; the other two are the engine's own type errors, whose text the
    language leaves open.  [NoClosure] is not a JavaScript error: it marks a
    handle number that no [step] call has produced. *)
Inductive error : Type :=
| TypeError (msg : string)
| NullAccess
| NotAFunction
| NoClosure.

Inductive result (A : Type) : Type :=
| Ok (a : A)
| Throw (e : error).
Arguments Ok {A} a.
Arguments Throw {A} e.

(** How a function of the module ends when it does not throw: it returns,
    or it ends in the call of line 58 ([fn(i, items[i], next)]), or in the
    call of line 125 ([done(items)]). *)
Inductive completion : Type :=
| Returned
| TailStep (f : value) (i : nat) (v : value) (n : value)
| TailDone (d : value) (its : value).

#[global] Instance error_eq_dec : EqDecision error.
Proof. solve_decision. Defined.
#[global] Instance completion_eq_dec : EqDecision completion.
Proof. solve_decision. Defined.

(** State and exception: the state reached is kept when a function throws. *)
Definition M (A : Type) : Type := world -> result A * world.

Definition ret {A} (a : A) : M A := fun w => (Ok a, w).
Definition throw {A} (e : error) : M A := fun w => (Throw e, w).
Definition bind {A B} (m : M A) (k : A -> M B) : M B :=
  fun w => match m w with
           | (Ok a, w') => k a w'
           | (Throw e, w') => (Throw e, w')
           end.
Definition gets {A} (f : world -> A) : M A := fun w => (Ok (f w), w).
Definition modify (f : world -> world) : M unit := fun w => (Ok tt, f w).

Declare Scope js_scope.
Delimit Scope js_scope with js.
Notation "'let*' x := m 'in' k" := (bind m (fun x => k))
  (at level 10, x name, m at level 100, k at level 200) : js_scope.
Notation "m ;; k" := (bind m (fun _ => k))
  (at level 100, k at level 200, right associativity) : js_scope.
Open Scope js_scope.

(** The double quote of the error messages. *)
Definition dq : string := String (Ascii.ascii_of_nat 34) EmptyString.

(** ** The functions of [internals] *)

Module internals.

(** [internals.items[i]]: a property read on [null] throws. *)
Definition items_get (i : nat) : M value :=
  let* its := gets (fun w => items (self w)) in
  match its with
  | None => throw NullAccess
  | Some a => gets (fun w => array_get (array_at w a) i)
  end.

(** [internals.items.length]. *)
Definition items_length : M nat :=
  let* its := gets (fun w => items (self w)) in
  match its with
  | None => throw NullAccess
  | Some a => gets (fun w => length (array_at w a))
  end.

(** [internals.items[i] = newVal]. *)
Definition items_set (i : nat) (newVal : value) : M unit :=
  let* its := gets (fun w => items (self w)) in
  match its with
  | None => throw NullAccess
  | Some a =>
      modify (fun w => set_heap (<[a := array_set (array_at w a) i newVal]> (heap w)) w)
  end.

(** Lines 95 to 99. *)
Definition updateVal (i : nat) (newVal : value) : M unit :=
  if negb (String.eqb (typeof newVal) "undefined") then items_set i newVal
  else ret tt.

(** Lines 124 to 126.  The callee [internals.done] is read, then the
    argument; calling what is not a function throws. *)
Definition finish : M completion :=
  let* d := gets (fun w => done (self w)) in
  let* its := gets (fun w => items (self w)) in
  if String.eqb (typeof d) "function"
  then ret (TailDone d (from_option VArr VNull its))
  else throw NotAFunction.

(** Lines 70 to 86, the part that runs when [step] is called: a new
    [next] over the parameter [i], and [internals.abort(i)] in its
    [abort] property. *)
Definition step (i : nat) : M value :=
  let* h := gets (fun w => length (closures w)) in
  modify (fun w => set_closures (closures w ++ [Closure i i]) w);;
  ret (VNext h).

(** Lines 57 to 59.  Callee and arguments are evaluated from left to
    right, and only then is the callee required to be a function. *)
Definition iterate (i : nat) : M completion :=
  let* f := gets (fun w => fn (self w)) in
  let* v := items_get i in
  let* n := step i in
  if String.eqb (typeof f) "function"
  then ret (TailStep f i v n)
  else throw NotAFunction.

(** The variable [i] of the [h]-th [step] call. *)
Definition closure_get (h : hid) : M closure :=
  let* c := gets (fun w => closures w !! h) in
  match c with
  | None => throw NoClosure
  | Some c => ret c
  end.

(** Lines 73 to 83: the function [next] of the [h]-th [step] call.  The
    argument [i++] is evaluated, and [i] incremented, before [updateVal]
    runs. *)
Definition next (h : hid) (newVal : value) : M completion :=
  let* ab := gets (fun w => isAborted (self w)) in
  if negb ab then
    let* c := closure_get h in
    modify (fun w => set_closures
              (<[h := Closure (S (next_i c)) (abort_i c)]> (closures w)) w);;
    updateVal (next_i c) newVal;;
    let* len := items_length in
    if decide (S (next_i c) < len) then iterate (S (next_i c))
    else finish
  else ret Returned.

(** Lines 110 to 115: the function [abort] made by the [h]-th [step]
    call. *)
Definition abort (h : hid) (newVal : value) : M completion :=
  modify (set_isAborted true);;
  let* c := closure_get h in
  updateVal (abort_i c) newVal;;
  finish.

(** Lines 133 to 138. *)
Definition reset : M unit :=
  modify (set_items None);;
  modify (set_fn VNull);;
  modify (set_done VNull);;
  modify (set_isAborted false).

(** Lines 147 to 154. *)
Definition validateItemsParam (its : value) : M loc :=
  match its with
  | VArr a => ret a
  | _ => throw (TypeError (dq +:+ "items" +:+ dq +:+ " must be an array. Got "
                            +:+ dq +:+ typeof its +:+ dq))
  end.

(** Lines 163 to 170. *)
Definition validateFnParam (f : value) : M value :=
  if negb (String.eqb (typeof f) "function")
  then throw (TypeError (dq +:+ "fn" +:+ dq +:+ " must be a function. Got "
                           +:+ dq +:+ typeof f +:+ dq))
  else ret f.

(** Lines 179 to 190. *)
Definition validateDoneParam (d : value) : M value :=
  if negb (String.eqb (typeof d) "undefined") then
    if negb (String.eqb (typeof d) "function")
    then throw (TypeError (dq +:+ "done" +:+ dq +:+ " must be a function. Got "
                             +:+ dq +:+ typeof d +:+ dq))
    else ret d
  else ret VNoop.

End internals.

(** ** The exported function *)

(** Lines 204 to 215.  [items.length] at line 212 reads the parameter, which
    by then is the array stored in [internals.items]. *)
Definition iterate (its f d : value) : M completion :=
  internals.reset;;
  let* a := internals.validateItemsParam its in
  modify (set_items (Some a));;
  let* f' := internals.validateFnParam f in
  modify (set_fn f');;
  let* d' := internals.validateDoneParam d in
  modify (set_done d');;
  let* len := gets (fun w => length (array_at w a)) in
  if decide (len <> 0) then internals.iterate 0
  else ret Returned.

(** ** Calls from outside *)

(** A call [callee(args)]. *)
Record call : Type := Call {
  callee : value;
  args : list value
}.

#[global] Instance call_eq_dec : EqDecision call.
Proof. solve_decision. Defined.

(** What a call does to the module: [next] and [abort] take [newVal] as
    their first parameter, [iterate] takes three; [noop] and a function of
    the caller leave the module alone; anything else is not callable. *)
Definition invoke (c : call) : M completion :=
  match callee c with
  | VNext h => internals.next h (param 0 (args c))
  | VAbort h => internals.abort h (param 0 (args c))
  | VIterate => iterate (param 0 (args c)) (param 1 (args c)) (param 2 (args c))
  | VNoop => ret Returned
  | VFun _ => ret Returned
  | _ => throw NotAFunction
  end.

(** [next.abort], as the caller reads it from the [next] it was given. *)
Definition abort_of (n : value) : value :=
  match n with
  | VNext h => VAbort h
  | _ => VUndefined
  end.

(** The calls [cs], one after the other, each from the top level, with the
    way each ended. *)
Fixpoint invoke_all (cs : list call) (w : world) : list (result completion) * world :=
  match cs with
  | [] => ([], w)
  | c :: cs' =>
      let (r, w1) := invoke c w in
      let (rs, w2) := invoke_all cs' w1 in
      (r :: rs, w2)
  end.

(** The same, stopping after the first call that ends in [done(items)]. *)
Fixpoint invoke_until_done (cs : list call) (w : world) : world :=
  match cs with
  | [] => w
  | c :: cs' =>
      match invoke c w with
      | (Ok (TailDone _ _), w1) => w1
      | (_, w1) => invoke_until_done cs' w1
      end
  end.

(** The contents of what [done] is given. *)
Definition array_of (w : world) (its : value) : list value :=
  match its with
  | VArr a => array_at w a
  | _ => []
  end.

(** ** Running the module against the caller's functions *)

(** What the module is seen to do: the calls of lines 58 and 125, the
    second with the contents of the array it passes, and what it throws. *)
Inductive event : Type :=
| EvStep (f : value) (i : nat) (v : value) (n : value)
| EvDone (d : value) (its : value) (content : list value)
| EvThrow (e : error).

#[global] Instance event_eq_dec : EqDecision event.
Proof. solve_decision. Defined.

(** The sequences that [done] was called with. *)
Definition done_calls (tr : list event) : list (list value) :=
  omap (fun e => match e with EvDone _ _ content => Some content | _ => None end) tr.

(** The indices that [fn] was called with. *)
Definition step_indices (tr : list event) : list nat :=
  omap (fun e => match e with EvStep _ i _ _ => Some i | _ => None end) tr.

Section Run.

(** The functions of the caller: the calls that function [f] makes, in
    order, when called with [args].  Each of them is a call in the body of
    [f], so the calls it leads to run before the next one starts. *)
Variable prog : nat -> list value -> list call.

(** One call taken from the pending ones.  A function of the caller puts
    the calls of its body in front; a function of the module runs and, when
    it ends in a call, that call is next.  An error that nobody catches
    drops everything pending. *)
Definition exec (c : call) (rest : list call) (w : world)
  : list event * list call * world :=
  match callee c with
  | VFun f => ([], prog f (args c) ++ rest, w)
  | _ =>
      match invoke c w with
      | (Ok Returned, w') => ([], rest, w')
      | (Ok (TailStep f i v n), w') =>
          ([EvStep f i v n], Call f [VNum (Z.of_nat i); v; n] :: rest, w')
      | (Ok (TailDone d its), w') =>
          ([EvDone d its (array_of w' its)], Call d [its] :: rest, w')
      | (Throw e, w') => ([EvThrow e], [], w')
      end
  end.

(** The pending calls run to the end, or until [fuel] calls were made. *)
Fixpoint run (fuel : nat) (pending : list call) (w : world)
  : list event * list call * world :=
  match fuel, pending with
  | S fuel', c :: rest =>
      let '(ev, pending', w') := exec c rest w in
      let '(tr, remaining, w'') := run fuel' pending' w' in
      (ev ++ tr, remaining, w'')
  | _, _ => ([], pending, w)
  end.

End Run.

(** ** Three step functions *)

Module Scenario.

(** [(i, v, next) => next(v * 2)] on numbers, as function 0; function 1
    is a [done] that calls nothing. *)
Definition doubling (f : nat) (args : list value) : list call :=
  match f with
  | 0 => [Call (param 2 args)
               [match param 1 args with VNum n => VNum (n * 2) | _ => VNaN end]]
  | _ => []
  end.

(** A step that aborts at index 1 with ["X"] and goes on elsewhere. *)
Definition abort_at_1 (f : nat) (args : list value) : list call :=
  match f with
  | 0 => match param 0 args with
         | VNum 1 => [Call (abort_of (param 2 args)) [VStr "X"]]
         | _ => [Call (param 2 args) []]
         end
  | _ => []
  end.

(** The misuse named in the comment of [isAborted]: at index 1 the step
    calls [next.abort()], does not return, and calls [next()]. *)
Definition abort_then_next (f : nat) (args : list value) : list call :=
  match f with
  | 0 => match param 0 args with
         | VNum 1 => [Call (abort_of (param 2 args)) []; Call (param 2 args) []]
         | _ => [Call (param 2 args) []]
         end
  | _ => []
  end.

Definition heap123 : gmap loc (list value) :=
  {[ 0 := [VNum 1; VNum 2; VNum 3] ]}.

Definition heap_abc : gmap loc (list value) :=
  {[ 0 := [VStr "a"; VStr "b"; VStr "c"] ]}.

End Scenario.

(** ** Vocabulary of the statements *)

(** [typeof v === 'function']. *)
Definition callable (v : value) : bool := String.eqb (typeof v) "function".

(** The world after [internals.items[i] = newVal] on the array at [a]. *)
Definition written (a : loc) (i : nat) (newVal : value) (w : world) : world :=
  set_heap (<[a := array_set (array_at w a) i newVal]> (heap w)) w.

(** The world after [updateVal(i, newVal)] when [internals.items] is the
    array at [a]: only a value other than [undefined] is stored. *)
Definition stored (a : loc) (i : nat) (newVal : value) (w : world) : world :=
  if decide (newVal = VUndefined) then w else written a i newVal w.

(** The world after the [i++] of the [next] created by the [h]-th [step]. *)
Definition bumped (h : hid) (c : closure) (w : world) : world :=
  set_closures (<[h := Closure (S (next_i c)) (abort_i c)]> (closures w)) w.

(** The world after [internals.step(i)] has made its closures. *)
Definition minted (i : nat) (w : world) : world :=
  set_closures (closures w ++ [Closure i i]) w.

(** The callback that [validateDoneParam] stores. *)
Definition done_or_noop (d : value) : value :=
  if decide (d = VUndefined) then VNoop else d.

(** The three conditions that [iterate] checks. *)
Definition valid_call (its f d : value) : bool :=
  isArray its && callable f && (bool_decide (d = VUndefined) || callable d).

(** The message of the error a rejected call throws: the first failing
    check names its parameter and the [typeof] of what it got. *)
Definition rejection (its f d : value) : string :=
  if negb (isArray its)
  then dq +:+ "items" +:+ dq +:+ " must be an array. Got "
          +:+ dq +:+ typeof its +:+ dq
  else if negb (callable f)
  then dq +:+ "fn" +:+ dq +:+ " must be a function. Got "
          +:+ dq +:+ typeof f +:+ dq
  else dq +:+ "done" +:+ dq +:+ " must be a function. Got "
          +:+ dq +:+ typeof d +:+ dq.

(** The properties of [internals] as a rejected call leaves them: [reset]
    has run, and each parameter before the rejected one is stored. *)
Definition rejected (its f : value) : fields :=
  match its with
  | VArr a => if callable f then Fields (Some a) f VNull false
              else Fields (Some a) VNull VNull false
  | _ => Fields None VNull VNull false
  end.

(** A call to a handle is without effect on the run in progress: it
    dispatches no step, it does not call [done], and the array of the run is
    as before. *)
Definition leaves_run_alone (c : call) (w : world) : Prop :=
  match invoke c w with
  | (Ok (TailStep _ _ _ _), _) => False
  | (Ok (TailDone _ _), _) => False
  | (_, w') => forall a, items (self w) = Some a -> array_at w' a = array_at w a
  end.

Definition is_next (v : value) : bool :=
  match v with VNext _ => true | _ => false end.

(** The element a position holds after [updateVal] was given [newVal]. *)
Definition replaced (newVal v : value) : value :=
  if decide (newVal = VUndefined) then v else newVal.

(** The calls of line 58 for the indices [from], ..., [from + count - 1] of
    a walk over [xs] in which no step has written ahead of itself: index
    [j] gets [xs[j]] and the [next] of the [j]-th [step] call of the walk,
    [base] being the number of closures made before the walk. *)
Definition step_events (f : value) (xs : list value) (base from count : nat)
  : list event :=
  map (fun j => EvStep f j (array_get xs j) (VNext (base + j))) (seq from count).

(** The array after a walk over [xs] in which the step at index [i], on
    value [v], passed the arguments [r i v] to its [next]. *)
Definition walked (r : nat -> value -> list value) (xs : list value) : list value :=
  imap (fun i v => replaced (param 0 (r i v)) v) xs.

(** The walk of [iterate(xs, f, d)] on the array at [a] is at index [i],
    with handle [h], every index below [i] has been answered as [r] says,
    and [base] closures existed before the walk. *)
Definition at_index (f d : nat) (a : loc) (xs : list value)
    (r : nat -> value -> list value) (base : nat)
    (i : nat) (h : hid) (w : world) : Prop :=
  self w = Fields (Some a) (VFun f) (VFun d) false
  /\ array_at w a = take i (walked r xs) ++ drop i xs
  /\ closures w !! h = Some (Closure i i)
  /\ length (closures w) = S h
  /\ h = base + i.

(** A call leaves the length of the array of the run as it is. *)
Definition keeps_length (c : call) (w : world) : Prop :=
  forall a, items (self w) = Some a ->
    length (array_at (invoke c w).2 a) = length (array_at w a).

(** A handle made by the [base]-th [step] call or a later one. *)
Definition own_handle (base : nat) (v : value) : bool :=
  match v with
  | VNext h | VAbort h => base <=? h
  | _ => false
  end.

(** A run over the array at [a], of length [n], is set up, and every
    closure made since the [base]-th [step] call has its indices inside the
    array. *)
Definition in_run (a : loc) (n base : nat) (w : world) : Prop :=
  items (self w) = Some a
  /\ callable (fn (self w)) = true
  /\ callable (done (self w)) = true
  /\ length (array_at w a) = n
  /\ forall h c, base <= h -> closures w !! h = Some c ->
       next_i c < n /\ abort_i c < n.

(** ** Worlds reached by small programs *)

Module Stale.

Definition two_arrays : gmap loc (list value) :=
  {[ 0 := [VNum 1; VNum 2; VNum 3]; 1 := [VNum 10; VNum 20; VNum 30] ]}.

(** [iterate([1,2,3], f0, f1)], where [f0] keeps the [next] it is given
    (handle 0) and returns. *)
Definition first_run : world :=
  (invoke (Call VIterate [VArr 0; VFun 0; VFun 1]) (init two_arrays)).2.

(** Then [iterate([10,20,30], f2, f3)]: a second run, at index 0. *)
Definition second_run : world :=
  (invoke (Call VIterate [VArr 1; VFun 2; VFun 3]) first_run).2.

(** [iterate([1], f0, f1)] and one call of the [next] of index 0: the run
    has finished and [f1] has been called. *)
Definition finished : world :=
  (invoke_all [Call VIterate [VArr 0; VFun 0; VFun 1]; Call (VNext 0) []]
              (init {[ 0 := [VNum 1] ]})).2.

(** [iterate([1,2,3], f0, f1)] and [next.abort()] at index 0. *)
Definition aborted : world :=
  (invoke_all [Call VIterate [VArr 0; VFun 0; VFun 1]; Call (VAbort 0) []]
              (init two_arrays)).2.

(** [iterate([1,2], f0, f1)], where [f0] keeps the [next] it is given
    (handle 0) and returns. *)
Definition pair_run : world :=
  (invoke (Call VIterate [VArr 0; VFun 0; VFun 1])
          (init {[ 0 := [VNum 1; VNum 2] ]})).2.

(** A run over [[1,2,3]] taken to index 2 (handles 0, 1, 2), then a
    second run over [[9]] (handle 3). *)
Definition short_second_run : world :=
  (invoke_all [Call VIterate [VArr 0; VFun 0; VFun 1];
               Call (VNext 0) []; Call (VNext 1) [];
               Call VIterate [VArr 1; VFun 2; VFun 3]]
              (init {[ 0 := [VNum 1; VNum 2; VNum 3]; 1 := [VNum 9] ]})).2.

End Stale.

(** ** Vocabulary of the further properties *)

(** What [next] does once it is past the test of the flag, from the state
    [w1] that [updateVal] leaves. *)
Definition next_tail (i : nat) (w1 : world) : result completion * world :=
  match items (self w1) with
  | None => (Throw NullAccess, w1)
  | Some a =>
      if decide (S i < length (array_at w1 a)) then internals.iterate (S i) w1
      else internals.finish w1
  end.


(** The calls by which the indices of a walk over [xs] are answered one
    after the other from the top level: for index [j], the [next] made for
    it is called with the arguments [r j xs[j]]. *)
Definition answers_from (r : nat -> value -> list value) (xs : list value)
    (base from count : nat) : list call :=
  map (fun j => Call (VNext (base + j)) (r j (array_get xs j))) (seq from count).

(** How those calls end: each but the last in the call of [fv] for the
    next index, the last in the call of [dv]. *)
Definition answers_end (fv dv : value) (a : loc) (xs : list value)
    (base from count : nat) : list (result completion) :=
  map (fun j => Ok (TailStep fv (S j) (array_get xs (S j)) (VNext (base + S j))))
      (seq from (count - 1))
  ++ [Ok (TailDone dv (VArr a))].

(** ** The scenarios, run *)

Example doubling_run :
  run Scenario.doubling 20 [Call VIterate [VArr 0; VFun 0; VFun 1]] (init Scenario.heap123)
  = ([EvStep (VFun 0) 0 (VNum 1) (VNext 0);
      EvStep (VFun 0) 1 (VNum 2) (VNext 1);
      EvStep (VFun 0) 2 (VNum 3) (VNext 2);
      EvDone (VFun 1) (VArr 0) [VNum 2; VNum 4; VNum 6]],
     [],
     World (Fields (Some 0) (VFun 0) (VFun 1) false)
           {[ 0 := [VNum 2; VNum 4; VNum 6] ]}
           [Closure 1 0; Closure 2 1; Closure 3 2]).
Proof. vm_compute. reflexivity. Qed.

Example abort_run :
  run Scenario.abort_at_1 20 [Call VIterate [VArr 0; VFun 0; VFun 1]] (init Scenario.heap_abc)
  = ([EvStep (VFun 0) 0 (VStr "a") (VNext 0);
      EvStep (VFun 0) 1 (VStr "b") (VNext 1);
      EvDone (VFun 1) (VArr 0) [VStr "a"; VStr "X"; VStr "c"]],
     [],
     World (Fields (Some 0) (VFun 0) (VFun 1) true)
           {[ 0 := [VStr "a"; VStr "X"; VStr "c"] ]}
           [Closure 1 0; Closure 1 1]).
Proof. vm_compute. reflexivity. Qed.

Example abort_then_next_run :
  run Scenario.abort_then_next 20 [Call VIterate [VArr 0; VFun 0; VFun 1]]
      (init Scenario.heap123)
  = ([EvStep (VFun 0) 0 (VNum 1) (VNext 0);
      EvStep (VFun 0) 1 (VNum 2) (VNext 1);
      EvDone (VFun 1) (VArr 0) [VNum 1; VNum 2; VNum 3]],
     [],
     World (Fields (Some 0) (VFun 0) (VFun 1) true)
           Scenario.heap123
           [Closure 1 0; Closure 1 1]).
Proof. vm_compute. reflexivity. Qed.

(** ** Equations of the functions *)

Lemma bind_gets {A B} (f : world -> A) (k : A -> M B) w :
  bind (gets f) k w = k (f w) w.
Proof. reflexivity. Qed.

Lemma bind_modify {B} (f : world -> world) (k : unit -> M B) w :
  bind (modify f) k w = k tt (f w).
Proof. reflexivity. Qed.

Lemma bind_ret {A B} (a : A) (k : A -> M B) w : bind (ret a) k w = k a w.
Proof. reflexivity. Qed.

Lemma bind_throw {A B} (e : error) (k : A -> M B) w :
  bind (throw e) k w = (Throw e, w).
Proof. reflexivity. Qed.

Lemma bind_ok {A B} (m : M A) (k : A -> M B) w a w' :
  m w = (Ok a, w') -> bind m k w = k a w'.
Proof. intros H. unfold bind. rewrite H. reflexivity. Qed.

Lemma bind_assoc {A B C} (m : M A) (f : A -> M B) (k : B -> M C) w :
  bind (bind m f) k w = bind m (fun x => bind (f x) k) w.
Proof. unfold bind. destruct (m w) as [[x|e] w']; reflexivity. Qed.

Ltac js_simpl :=
  repeat first
    [ rewrite bind_assoc | rewrite bind_gets | rewrite bind_modify
    | rewrite bind_ret | rewrite bind_throw ];
  cbv beta.

Lemma typeof_undefined v :
  String.eqb (typeof v) "undefined" = true <-> v = VUndefined.
Proof. split; [destruct v; simpl; congruence | intros ->; reflexivity]. Qed.

Lemma updateVal_eq a i newVal w :
  items (self w) = Some a ->
  internals.updateVal i newVal w = (Ok tt, stored a i newVal w).
Proof.
  intros Ha. unfold internals.updateVal, stored.
  destruct (decide (newVal = VUndefined)) as [->|Hne]; [reflexivity|].
  destruct (String.eqb (typeof newVal) "undefined") eqn:E.
  - apply typeof_undefined in E. contradiction.
  - simpl. unfold internals.items_set. js_simpl. rewrite Ha. reflexivity.
Qed.

Lemma updateVal_undefined i w :
  internals.updateVal i VUndefined w = (Ok tt, w).
Proof. reflexivity. Qed.

Lemma stored_self a i v w : self (stored a i v w) = self w.
Proof. unfold stored. case_decide; reflexivity. Qed.

Lemma stored_closures a i v w : closures (stored a i v w) = closures w.
Proof. unfold stored. case_decide; reflexivity. Qed.

Lemma finish_eq a w :
  items (self w) = Some a -> callable (done (self w)) = true ->
  internals.finish w = (Ok (TailDone (done (self w)) (VArr a)), w).
Proof.
  intros Ha Hd. unfold internals.finish. js_simpl. rewrite Ha.
  unfold callable in Hd. rewrite Hd. reflexivity.
Qed.

Lemma iterate_eq a i w :
  items (self w) = Some a -> callable (fn (self w)) = true ->
  internals.iterate i w
  = (Ok (TailStep (fn (self w)) i (array_get (array_at w a) i)
                  (VNext (length (closures w)))),
     minted i w).
Proof.
  intros Ha Hf. unfold internals.iterate, internals.items_get, internals.step.
  js_simpl. rewrite Ha. js_simpl.
  unfold callable in Hf. simpl. rewrite Hf. reflexivity.
Qed.

Lemma next_aborted h newVal w :
  isAborted (self w) = true -> internals.next h newVal w = (Ok Returned, w).
Proof. intros Hab. unfold internals.next. js_simpl. rewrite Hab. reflexivity. Qed.

Lemma next_eq h c a newVal w :
  isAborted (self w) = false ->
  closures w !! h = Some c ->
  items (self w) = Some a ->
  callable (fn (self w)) = true ->
  callable (done (self w)) = true ->
  internals.next h newVal w
  = let w1 := stored a (next_i c) newVal (bumped h c w) in
    if decide (S (next_i c) < length (array_at w1 a))
    then (Ok (TailStep (fn (self w)) (S (next_i c))
                       (array_get (array_at w1 a) (S (next_i c)))
                       (VNext (length (closures w)))),
          minted (S (next_i c)) w1)
    else (Ok (TailDone (done (self w)) (VArr a)), w1).
Proof.
  intros Hab Hc Ha Hf Hd.
  unfold internals.next, internals.closure_get. js_simpl.
  rewrite Hab. cbn [negb]. js_simpl. rewrite Hc. js_simpl.
  fold (bumped h c w).
  erewrite bind_ok by (apply (updateVal_eq a); exact Ha).
  set (w1 := stored a (next_i c) newVal (bumped h c w)).
  assert (Hs : self w1 = self w) by (unfold w1; rewrite stored_self; reflexivity).
  assert (Hcl : length (closures w1) = length (closures w)).
  { unfold w1. rewrite stored_closures. simpl. apply length_insert. }
  unfold internals.items_length. js_simpl. rewrite Hs, Ha. js_simpl.
  cbv zeta.
  destruct (decide (S (next_i c) < length (array_at w1 a))).
  - rewrite (iterate_eq a) by (rewrite Hs; assumption).
    rewrite Hs, Hcl. reflexivity.
  - rewrite (finish_eq a) by (rewrite Hs; assumption).
    rewrite Hs. reflexivity.
Qed.

Lemma abort_eq h c a newVal w :
  closures w !! h = Some c ->
  items (self w) = Some a ->
  callable (done (self w)) = true ->
  internals.abort h newVal w
  = (Ok (TailDone (done (self w)) (VArr a)),
     stored a (abort_i c) newVal (set_isAborted true w)).
Proof.
  intros Hc Ha Hd.
  unfold internals.abort, internals.closure_get. js_simpl.
  simpl closures. rewrite Hc. js_simpl.
  erewrite bind_ok by (apply (updateVal_eq a); exact Ha).
  rewrite (finish_eq a) by (rewrite stored_self; assumption).
  rewrite stored_self. reflexivity.
Qed.

Lemma abort_sets_flag h newVal w :
  isAborted (self (internals.abort h newVal w).2) = true.
Proof.
  unfold internals.abort, internals.closure_get. js_simpl.
  simpl closures. destruct (closures w !! h) as [c|]; [|reflexivity].
  js_simpl. unfold internals.updateVal.
  destruct (negb (String.eqb (typeof newVal) "undefined")).
  - unfold internals.items_set. js_simpl. simpl items.
    destruct (items (self w)) as [a|]; [|reflexivity].
    js_simpl. unfold internals.finish. js_simpl. simpl.
    destruct (String.eqb (typeof (done (self w))) "function"); reflexivity.
  - js_simpl. unfold internals.finish. js_simpl. simpl.
    destruct (String.eqb (typeof (done (self w))) "function"); reflexivity.
Qed.

Lemma iterate_valid a f d w :
  callable f = true -> d = VUndefined \/ callable d = true ->
  iterate (VArr a) f d w
  = let w1 := World (Fields (Some a) f (done_or_noop d) false) (heap w) (closures w) in
    if decide (length (array_at w a) <> 0)
    then (Ok (TailStep f 0 (array_get (array_at w a) 0) (VNext (length (closures w)))),
          minted 0 w1)
    else (Ok Returned, w1).
Proof.
  intros Hf Hd. unfold iterate, internals.reset, internals.validateItemsParam,
    internals.validateFnParam, internals.validateDoneParam.
  js_simpl. unfold callable in Hf. rewrite Hf. cbn [negb]. js_simpl.
  assert (Hd' : (if negb (String.eqb (typeof d) "undefined")
                 then if negb (String.eqb (typeof d) "function")
                      then throw (TypeError (dq +:+ "done" +:+ dq +:+ " must be a function. Got "
                                               +:+ dq +:+ typeof d +:+ dq))
                      else ret d
                 else ret VNoop) = ret (done_or_noop d)).
  { unfold done_or_noop. destruct Hd as [->|Hd]; [reflexivity|].
    unfold callable in Hd. rewrite Hd.
    destruct d; simpl in *; try discriminate; reflexivity. }
  rewrite Hd'. js_simpl. cbv zeta.
  change (array_at (set_done _ _) a) with (array_at w a).
  destruct (decide (length (array_at w a) <> 0)); [|reflexivity].
  rewrite (iterate_eq a) by (try reflexivity; exact Hf). reflexivity.
Qed.

Lemma array_at_stored a i v w :
  array_at (stored a i v w) a
  = if decide (v = VUndefined) then array_at w a
    else array_set (array_at w a) i v.
Proof.
  unfold stored. case_decide; [reflexivity|].
  unfold written, array_at at 1. simpl. rewrite lookup_insert_eq. reflexivity.
Qed.

Lemma invoke_all_next_aborted cs w :
  isAborted (self w) = true ->
  Forall (fun c => is_next (callee c) = true) cs ->
  invoke_all cs w = (map (fun _ => Ok Returned) cs, w).
Proof.
  intros Hab Hcs. induction Hcs as [|[v args] cs Hv _ IH]; [reflexivity|].
  destruct v; try discriminate Hv. simpl.
  change (invoke _ w) with (internals.next h (param 0 args) w).
  rewrite next_aborted by exact Hab. rewrite IH. reflexivity.
Qed.

Lemma array_set_length arr i v :
  length (array_set arr i v) = if decide (i < length arr) then length arr else S i.
Proof.
  unfold array_set. case_decide.
  - apply length_insert.
  - rewrite !length_app, length_replicate. simpl. lia.
Qed.

Lemma array_set_inside arr i v :
  i < length arr -> array_set arr i v = <[i := v]> arr.
Proof. intros H. unfold array_set. case_decide; [reflexivity | lia]. Qed.

Lemma heap_stored a i v w :
  heap (stored a i v w)
  = if decide (v = VUndefined) then heap w
    else <[a := array_set (array_at w a) i v]> (heap w).
Proof. unfold stored. case_decide; reflexivity. Qed.

Lemma array_at_heap w w' a : heap w = heap w' -> array_at w a = array_at w' a.
Proof. unfold array_at. intros ->. reflexivity. Qed.

Lemma stored_length_inside a i v w :
  i < length (array_at w a) ->
  length (array_at (stored a i v w) a) = length (array_at w a).
Proof.
  intros H. rewrite array_at_stored. case_decide; [reflexivity|].
  rewrite array_set_length. case_decide; [reflexivity | lia].
Qed.

(** ** Walks in which every step answers at once *)

Lemma run_nil prog fuel w : run prog fuel [] w = ([], [], w).
Proof. destruct fuel; reflexivity. Qed.

Lemma run_step prog fuel c rest w ev p' w' :
  exec prog c rest w = (ev, p', w') ->
  run prog (S fuel) (c :: rest) w
  = (ev ++ (run prog fuel p' w').1.1, (run prog fuel p' w').1.2,
     (run prog fuel p' w').2).
Proof.
  intros E. cbn [run]. rewrite E.
  destruct (run prog fuel p' w') as [[tr rem] w'']. reflexivity.
Qed.

Lemma exec_fun prog f args rest w :
  exec prog (Call (VFun f) args) rest w = ([], prog f args ++ rest, w).
Proof. reflexivity. Qed.

Section Walk.

Variable prog : nat -> list value -> list call.
Variables (f d : nat) (a : loc) (xs : list value).
(** The arguments the step passes to [next] at index [i] on value [v]. *)
Variable r : nat -> value -> list value.
Variable base : nat.

Local Abbreviation final := (walked r xs).
Local Abbreviation walk_at := (at_index f d a xs r base).

Lemma final_length : length final = length xs.
Proof. apply length_imap. Qed.

Lemma final_lookup i v :
  xs !! i = Some v -> final !! i = Some (replaced (param 0 (r i v)) v).
Proof. intros H. unfold walked. rewrite list_lookup_imap, H. reflexivity. Qed.

Lemma mixed_length i : i <= length xs ->
  length (take i final ++ drop i xs) = length xs.
Proof.
  intros H. rewrite length_app, length_take, length_drop, final_length. lia.
Qed.

Lemma mixed_get i j : i <= j ->
  array_get (take i final ++ drop i xs) j = array_get xs j.
Proof.
  intros H. unfold array_get. destruct (decide (i <= length xs)) as [Hi|Hi].
  - rewrite lookup_app_r by (rewrite length_take, final_length; lia).
    rewrite length_take, final_length, Nat.min_l by lia.
    rewrite lookup_drop. f_equal. f_equal. lia.
  - rewrite (lookup_ge_None_2 xs j) by lia.
    rewrite lookup_ge_None_2; [reflexivity|].
    rewrite length_app, length_take, length_drop, final_length. lia.
Qed.

(** Storing the answer of index [i] moves the boundary by one. *)
Lemma mixed_store i v newVal :
  xs !! i = Some v ->
  (if decide (newVal = VUndefined) then take i final ++ drop i xs
   else array_set (take i final ++ drop i xs) i newVal)
  = take i (take i final) ++ replaced newVal v :: drop (S i) xs.
Proof.
  intros Hv.
  assert (Hi : i < length xs) by (eapply lookup_lt_Some; exact Hv).
  rewrite take_take, Nat.min_id.
  rewrite (drop_S xs v i Hv). unfold replaced.
  case_decide; [reflexivity|].
  rewrite array_set_inside
    by (rewrite length_app, length_take, final_length; simpl; lia).
  rewrite insert_app_r_alt by (rewrite length_take, final_length; lia).
  rewrite length_take, final_length, Nat.min_l, Nat.sub_diag by lia.
  reflexivity.
Qed.

Lemma mixed_next i v :
  xs !! i = Some v ->
  take i (take i final) ++ replaced (param 0 (r i v)) v :: drop (S i) xs
  = take (S i) final ++ drop (S i) xs.
Proof.
  intros Hv. rewrite take_take, Nat.min_id.
  rewrite (take_S_r final i _ (final_lookup i v Hv)).
  rewrite <- app_assoc. reflexivity.
Qed.

(** One answered step: [fn] is called at index [i] and calls its [next]
    with [r i v]; the state after that call. *)
Lemma answered i h w :
  i < length xs ->
  walk_at i h w ->
  prog f [VNum (Z.of_nat i); array_get xs i; VNext h]
    = [Call (VNext h) (r i (array_get xs i))] ->
  let w1 := stored a i (param 0 (r i (array_get xs i)))
                   (bumped h (Closure i i) w) in
  exec prog (Call (VFun f) [VNum (Z.of_nat i); array_get xs i; VNext h]) [] w
    = ([], [Call (VNext h) (r i (array_get xs i))], w)
  /\ invoke (Call (VNext h) (r i (array_get xs i))) w
     = (if decide (S i < length xs)
        then (Ok (TailStep (VFun f) (S i) (array_get xs (S i)) (VNext (S h))),
              minted (S i) w1)
        else (Ok (TailDone (VFun d) (VArr a)), w1))
  /\ array_at w1 a = take (S i) final ++ drop (S i) xs
  /\ self w1 = self w
  /\ length (closures w1) = S h.
Proof.
  intros Hi (Hs &Harr & Hc & Hl & Hb) Hp. cbv zeta.
  destruct (lookup_lt_is_Some_2 xs i Hi) as [v Hv].
  assert (Hg : array_get xs i = v) by (unfold array_get; rewrite Hv; reflexivity).
  rewrite Hg in *.
  set (w1 := stored a i (param 0 (r i v)) (bumped h (Closure i i) w)).
  assert (Ha1 : array_at w1 a = take (S i) final ++ drop (S i) xs).
  { unfold w1. rewrite array_at_stored.
    change (array_at (bumped _ _ w) a) with (array_at w a). rewrite Harr.
    rewrite (mixed_store i v _ Hv). apply mixed_next. exact Hv. }
  assert (Hs1 : self w1 = self w) by (unfold w1; rewrite stored_self; reflexivity).
  assert (Hl1 : length (closures w1) = S h).
  { unfold w1. rewrite stored_closures. simpl. rewrite length_insert. exact Hl. }
  split; [rewrite exec_fun, Hp; reflexivity|].
  split; [|repeat split; assumption].
  change (invoke (Call (VNext h) (r i v)) w)
    with (internals.next h (param 0 (r i v)) w).
  rewrite (next_eq h (Closure i i) a) by (rewrite ?Hs; try reflexivity; assumption).
  cbv zeta. cbn [next_i abort_i]. fold w1.
  rewrite Ha1, Hs, Hl. cbn [fn done].
  rewrite mixed_length by lia.
  rewrite mixed_get by lia. reflexivity.
Qed.

Lemma at_index_minted i h w1 :
  self w1 = Fields (Some a) (VFun f) (VFun d) false ->
  array_at w1 a = take (S i) final ++ drop (S i) xs ->
  length (closures w1) = S h ->
  h = base + i ->
  walk_at (S i) (S h) (minted (S i) w1).
Proof.
  intros Hs Ha Hl Hb. unfold minted. repeat split; simpl.
  - exact Hs.
  - exact Ha.
  - rewrite lookup_app_r by lia. rewrite Hl, Nat.sub_diag. reflexivity.
  - rewrite length_app; simpl; lia.
  - lia.
Qed.

(** [n] answered steps in a row, from index [i]: the calls of line 58 for
    the [n] next indices, and the walk at index [i + n]. *)
Lemma advance_phase n : forall i h w,
  i + n < length xs ->
  walk_at i h w ->
  (forall j v nx, j < i + n ->
     prog f [VNum (Z.of_nat j); v; nx] = [Call nx (r j v)]) ->
  exists w',
    run prog (2 * n) [Call (VFun f) [VNum (Z.of_nat i); array_get xs i; VNext h]] w
    = (step_events (VFun f) xs base (S i) n,
       [Call (VFun f) [VNum (Z.of_nat (i + n)); array_get xs (i + n); VNext (h + n)]],
       w')
    /\ walk_at (i + n) (h + n) w'.
Proof.
  induction n as [|n IH]; intros i h w Hin Hat Hp.
  - exists w. rewrite !Nat.add_0_r. split; [reflexivity | exact Hat].
  - assert (Hi : i < length xs) by lia.
    destruct (answered i h w Hi Hat (Hp i _ _ ltac:(lia)))
      as (E1 & E2 & Ha1 & Hs1 & Hl1).
    destruct Hat as (Hs & Harr & Hc & Hl & Hb).
    destruct (decide (S i < length xs)) as [_|]; [|lia].
    set (w1 := stored a i (param 0 (r i (array_get xs i)))
                      (bumped h (Closure i i) w)) in *.
    destruct (IH (S i) (S h) (minted (S i) w1)) as (w' & Er & Hat').
    + lia.
    + apply at_index_minted; [rewrite Hs1; exact Hs | exact Ha1 | exact Hl1 | exact Hb].
    + intros j v nx Hj. apply Hp. lia.
    + exists w'. split.
      * replace (2 * S n) with (S (S (2 * n))) by lia.
        rewrite (run_step _ _ _ _ _ _ _ _ E1).
        assert (E3 : exec prog (Call (VNext h) (r i (array_get xs i))) [] w
                     = ([EvStep (VFun f) (S i) (array_get xs (S i)) (VNext (S h))],
                        [Call (VFun f) [VNum (Z.of_nat (S i)); array_get xs (S i);
                                        VNext (S h)]],
                        minted (S i) w1)).
        { unfold exec. cbn [callee]. rewrite E2. reflexivity. }
        rewrite (run_step _ _ _ _ _ _ _ _ E3). rewrite Er. cbn [fst snd].
        replace (i + S n) with (S i + n) by lia.
        replace (h + S n) with (S h + n) by lia.
        unfold step_events. cbn [seq map app].
        replace (base + S i) with (S h) by lia. reflexivity.
      * replace (i + S n) with (S i + n) by lia.
        replace (h + S n) with (S h + n) by lia. exact Hat'.
Qed.

End Walk.

Lemma run_add prog n m : forall p w,
  run prog (n + m) p w
  = ((run prog n p w).1.1 ++ (run prog m (run prog n p w).1.2 (run prog n p w).2).1.1,
     (run prog m (run prog n p w).1.2 (run prog n p w).2).1.2,
     (run prog m (run prog n p w).1.2 (run prog n p w).2).2).
Proof.
  induction n as [|n IH]; intros p w.
  - simpl. destruct (run prog m p w) as [[tr rem] w']. reflexivity.
  - destruct p as [|c rest].
    + simpl. rewrite run_nil. reflexivity.
    + cbn [Nat.add run]. destruct (exec prog c rest w) as [[ev p'] w'].
      rewrite IH. destruct (run prog n p' w') as [[tr1 p1] w1]. cbn [fst snd].
      destruct (run prog m p1 w1) as [[tr2 p2] w2]. cbn [fst snd].
      rewrite app_assoc. reflexivity.
Qed.

Lemma walked_length r xs : length (walked r xs) = length xs.
Proof. apply length_imap. Qed.

Lemma at_index_start f d a xs r w :
  heap w !! a = Some xs ->
  at_index f d a xs r (length (closures w)) 0 (length (closures w))
    (minted 0 (World (Fields (Some a) (VFun f) (VFun d) false) (heap w) (closures w))).
Proof.
  intros Ha. unfold minted. repeat split; simpl.
  - unfold array_at. simpl. rewrite Ha. reflexivity.
  - rewrite lookup_app_r by lia. rewrite Nat.sub_diag. reflexivity.
  - rewrite length_app. simpl. lia.
  - lia.
Qed.

(** The call of [iterate] itself, on a non-empty array. *)
Lemma exec_iterate prog f d a xs w :
  heap w !! a = Some xs -> xs <> [] ->
  exec prog (Call VIterate [VArr a; VFun f; VFun d]) [] w
  = ([EvStep (VFun f) 0 (array_get xs 0) (VNext (length (closures w)))],
     [Call (VFun f) [VNum (Z.of_nat 0); array_get xs 0; VNext (length (closures w))]],
     minted 0 (World (Fields (Some a) (VFun f) (VFun d) false) (heap w) (closures w))).
Proof.
  intros Ha Hne. unfold exec. cbn [callee].
  change (invoke _ w) with (iterate (VArr a) (VFun f) (VFun d) w).
  rewrite iterate_valid by (try reflexivity; right; reflexivity). cbv zeta.
  assert (HS : array_at w a = xs) by (unfold array_at; rewrite Ha; reflexivity).
  rewrite HS.
  destruct (decide (length xs <> 0)) as [_|Hz];
    [|destruct xs; [contradiction | simpl in Hz; lia]].
  reflexivity.
Qed.

(** The walk of a step that answers every index at once, in full. *)
Lemma sync_walk prog r f d w a xs :
  (forall i v n, prog f [VNum (Z.of_nat i); v; n] = [Call n (r i v)]) ->
  (forall its, prog d [its] = []) ->
  heap w !! a = Some xs -> xs <> [] ->
  exists w',
    run prog (2 * length xs + 2) [Call VIterate [VArr a; VFun f; VFun d]] w
    = (step_events (VFun f) xs (length (closures w)) 0 (length xs)
         ++ [EvDone (VFun d) (VArr a) (walked r xs)],
       [], w')
    /\ array_at w' a = walked r xs
    /\ self w' = Fields (Some a) (VFun f) (VFun d) false.
Proof.
  intros Hp Hd Ha Hne.
  assert (Hlen : 0 < length xs) by (destruct xs; [contradiction | simpl; lia]).
  set (base := length (closures w)).
  destruct (advance_phase prog f d a xs r base (length xs - 1) 0 base _
              ltac:(lia) (at_index_start f d a xs r w Ha)
              ltac:(intros; apply Hp))
    as (w1 & E1 & Hat).
  cbn [Nat.add] in E1, Hat.
  set (i := length xs - 1) in *. set (h := base + i) in *.
  assert (Hi : i < length xs) by (unfold i; lia).
  destruct (answered prog f d a xs r base i h w1 Hi Hat (Hp _ _ _))
    as (X1 & X2 & Ha1 & Hs1 & Hl1).
  destruct (decide (S i < length xs)) as [|_]; [unfold i in *; lia|].
  set (w2 := stored a i (param 0 (r i (array_get xs i)))
                    (bumped h (Closure i i) w1)) in *.
  assert (Hfin : array_at w2 a = walked r xs).
  { rewrite Ha1. replace (S i) with (length xs) by (unfold i; lia).
    rewrite drop_all, app_nil_r, take_ge by (rewrite walked_length; lia).
    reflexivity. }
  exists w2. split; [|split; [exact Hfin | rewrite Hs1; apply Hat]].
  replace (2 * length xs + 2) with (S (2 * i + 3)) by (unfold i; lia).
  rewrite (run_step _ (2 * i + 3) _ _ _ _ _ _ (exec_iterate prog f d a xs w Ha Hne)).
  rewrite run_add. fold base. rewrite E1. cbn [fst snd].
  replace 3 with (S (S (S 0))) by reflexivity.
  rewrite (run_step _ _ _ _ _ _ _ _ X1).
  assert (X3 : exec prog (Call (VNext h) (r i (array_get xs i))) [] w1
               = ([EvDone (VFun d) (VArr a) (walked r xs)],
                  [Call (VFun d) [VArr a]], w2)).
  { unfold exec. cbn [callee]. rewrite X2. cbn [array_of]. rewrite Hfin. reflexivity. }
  rewrite (run_step _ _ _ _ _ _ _ _ X3).
  rewrite (run_step _ _ _ _ _ _ _ _ (exec_fun prog d [VArr a] [] w2)).
  rewrite Hd. cbn [app run fst snd].
  replace (length xs) with (S i) by (unfold i; lia).
  unfold step_events. cbn [seq map app]. rewrite Nat.add_0_r. reflexivity.
Qed.

Lemma run_more prog n extra p w :
  (run prog n p w).1.2 = [] -> run prog (n + extra) p w = run prog n p w.
Proof.
  intros H. rewrite run_add, H, run_nil. cbn [fst snd]. rewrite app_nil_r.
  destruct (run prog n p w) as [[tr rem] w']. simpl in H. subst rem. reflexivity.
Qed.

Lemma step_indices_step_events f xs base from count tl :
  step_indices (step_events f xs base from count ++ tl)
  = seq from count ++ step_indices tl.
Proof.
  unfold step_events, step_indices. rewrite omap_app. f_equal. revert from.
  induction count as [|n IH]; intros from; [reflexivity|].
  simpl. f_equal. apply IH.
Qed.

Lemma done_calls_step_events f xs base from count tl :
  done_calls (step_events f xs base from count ++ tl) = done_calls tl.
Proof.
  unfold step_events, done_calls. rewrite omap_app.
  replace (omap _ (map _ (seq from count))) with (@nil (list value)); [reflexivity|].
  revert from. induction count as [|n IH]; intros from; [reflexivity|].
  simpl. apply IH.
Qed.

Lemma walked_lookup r xs i v :
  xs !! i = Some v -> walked r xs !! i = Some (replaced (param 0 (r i v)) v).
Proof. intros H. unfold walked. rewrite list_lookup_imap, H. reflexivity. Qed.

Lemma walked_unchanged r xs :
  (forall i v, param 0 (r i v) = VUndefined) -> walked r xs = xs.
Proof.
  intros H. apply list_eq. intros i. unfold walked. rewrite list_lookup_imap.
  destruct (xs !! i) as [v|]; [|reflexivity]. simpl.
  unfold replaced. rewrite H. reflexivity.
Qed.

(** The walk of a step that answers the indices below [k] and aborts at
    [k], in full. *)
Lemma abort_walk prog r ab f d w a xs k :
  (forall i v n, i < k -> prog f [VNum (Z.of_nat i); v; n] = [Call n (r i v)]) ->
  (forall v n, prog f [VNum (Z.of_nat k); v; n] = [Call (abort_of n) (ab v)]) ->
  (forall its, prog d [its] = []) ->
  heap w !! a = Some xs -> k < length xs ->
  exists w',
    run prog (2 * k + 4) [Call VIterate [VArr a; VFun f; VFun d]] w
    = (step_events (VFun f) xs (length (closures w)) 0 (S k)
         ++ [EvDone (VFun d) (VArr a)
               (take k (walked r xs)
                  ++ replaced (param 0 (ab (array_get xs k))) (array_get xs k)
                  :: drop (S k) xs)],
       [], w')
    /\ array_at w' a
       = take k (walked r xs)
           ++ replaced (param 0 (ab (array_get xs k))) (array_get xs k)
           :: drop (S k) xs
    /\ self w' = Fields (Some a) (VFun f) (VFun d) true.
Proof.
  intros Hp Hab Hd Ha Hk.
  assert (Hne : xs <> []) by (destruct xs; [simpl in Hk; lia | discriminate]).
  set (base := length (closures w)).
  destruct (advance_phase prog f d a xs r base k 0 base _
              ltac:(lia) (at_index_start f d a xs r w Ha)
              ltac:(intros; apply Hp; lia))
    as (w1 & E1 & Hat).
  cbn [Nat.add] in E1, Hat.
  destruct Hat as (Hs & Harr & Hc & Hl & Hb).
  destruct (lookup_lt_is_Some_2 xs k Hk) as [v Hv].
  assert (Hg : array_get xs k = v) by (unfold array_get; rewrite Hv; reflexivity).
  rewrite Hg in *.
  set (w2 := stored a k (param 0 (ab v)) (set_isAborted true w1)).
  set (delivered := take k (walked r xs) ++ replaced (param 0 (ab v)) v :: drop (S k) xs).
  assert (Hfin : array_at w2 a = delivered).
  { unfold w2. rewrite array_at_stored.
    change (array_at (set_isAborted true w1) a) with (array_at w1 a). rewrite Harr.
    rewrite (mixed_store xs r k v _ Hv). rewrite take_take, Nat.min_id. reflexivity. }
  exists w2. split; [|split; [exact Hfin|]].
  2:{ unfold w2. rewrite stored_self. simpl. rewrite Hs. reflexivity. }
  replace (2 * k + 4) with (S (2 * k + 3)) by lia.
  rewrite (run_step _ (2 * k + 3) _ _ _ _ _ _ (exec_iterate prog f d a xs w Ha Hne)).
  rewrite run_add. fold base. rewrite E1. cbn [fst snd].
  replace 3 with (S (S (S 0))) by reflexivity.
  rewrite (run_step _ _ _ _ _ _ _ _ (exec_fun prog f _ [] w1)).
  rewrite Hab. cbn [abort_of app].
  assert (X3 : exec prog (Call (VAbort (base + k)) (ab v)) [] w1
               = ([EvDone (VFun d) (VArr a) delivered], [Call (VFun d) [VArr a]], w2)).
  { unfold exec. cbn [callee].
    change (invoke _ w1) with (internals.abort (base + k) (param 0 (ab v)) w1).
    rewrite (abort_eq _ (Closure k k) a) by (rewrite ?Hs; try reflexivity; assumption).
    cbn [abort_i]. fold w2. rewrite Hs. cbn [done array_of]. rewrite Hfin.
    reflexivity. }
  rewrite (run_step _ _ _ _ _ _ _ _ X3).
  rewrite (run_step _ _ _ _ _ _ _ _ (exec_fun prog d [VArr a] [] w2)).
  rewrite Hd. cbn [app run fst snd].
  unfold step_events. cbn [seq map app]. rewrite Nat.add_0_r. reflexivity.
Qed.

Lemma delivered_lookup (pre xs : list value) (k : nat) (x : value) :
  length pre = k ->
  (pre ++ x :: drop (S k) xs) !! k = Some x
  /\ (forall j, k < j -> (pre ++ x :: drop (S k) xs) !! j = xs !! j)
  /\ (forall j, j < k -> (pre ++ x :: drop (S k) xs) !! j = pre !! j).
Proof.
  intros Hl. split; [|split].
  - rewrite lookup_app_r by lia. rewrite Hl, Nat.sub_diag. reflexivity.
  - intros j Hj. rewrite lookup_app_r by lia. rewrite Hl.
    destruct (j - k) as [|m] eqn:E; [lia|]. simpl. rewrite lookup_drop.
    f_equal. lia.
  - intros j Hj. apply lookup_app_l. lia.
Qed.

(** ** The length of the array *)

Lemma in_run_invoke a n base w c :
  in_run a n base w ->
  own_handle base (callee c) = true ->
  match invoke c w with
  | (Ok (TailDone _ _), w') => length (array_at w' a) = n
  | (_, w') => in_run a n base w'
  end.
Proof.
  intros Hin Hown. pose proof Hin as (Hi & Hf & Hd & Hn & Hcl).
  destruct c as [v args]. cbn [callee] in Hown.
  destruct v; try discriminate Hown; apply Nat.leb_le in Hown.
  - change (invoke _ w) with (internals.next h (param 0 args) w).
    destruct (isAborted (self w)) eqn:Hab.
    { rewrite next_aborted by exact Hab. exact Hin. }
    destruct (closures w !! h) as [c|] eqn:Hc.
    + destruct (Hcl h c Hown Hc) as [Hnx Habt].
      rewrite (next_eq h c a _ w Hab Hc Hi Hf Hd). cbv zeta.
      set (w1 := stored a (next_i c) (param 0 args) (bumped h c w)).
      assert (Hl1 : length (array_at w1 a) = n).
      { unfold w1. rewrite stored_length_inside; [exact Hn|].
        change (array_at (bumped h c w) a) with (array_at w a). lia. }
      assert (Hs1 : self w1 = self w) by (unfold w1; rewrite stored_self; reflexivity).
      assert (Hc1 : closures w1 = <[h := Closure (S (next_i c)) (abort_i c)]> (closures w)).
      { unfold w1. rewrite stored_closures. reflexivity. }
      rewrite Hl1. destruct (decide (S (next_i c) < n)) as [Hlt|Hge]; [|exact Hl1].
      unfold in_run, minted.
      change (array_at (set_closures _ w1) a) with (array_at w1 a).
      change (self (set_closures _ w1)) with (self w1).
      change (closures (set_closures ?cs w1)) with cs.
      rewrite Hs1. split; [exact Hi|]. split; [exact Hf|]. split; [exact Hd|].
      split; [exact Hl1|].
      intros h0 c0 Hb Hl. rewrite Hc1 in Hl.
      apply lookup_app_Some in Hl as [Hl|[_ Hl]].
      * destruct (decide (h = h0)) as [<-|Hne].
        -- rewrite list_lookup_insert_eq in Hl by (eapply lookup_lt_Some; exact Hc).
           injection Hl as <-. simpl. split; [exact Hlt | exact Habt].
        -- rewrite list_lookup_insert_ne in Hl by exact Hne.
           apply (Hcl h0 c0 Hb Hl).
      * apply list_lookup_singleton_Some in Hl as [_ <-]. simpl. split; exact Hlt.
    + unfold internals.next, internals.closure_get. js_simpl. rewrite Hab.
      cbn [negb]. js_simpl. rewrite Hc. js_simpl. exact Hin.
  - change (invoke _ w) with (internals.abort h (param 0 args) w).
    destruct (closures w !! h) as [c|] eqn:Hc.
    + destruct (Hcl h c Hown Hc) as [Hnx Habt].
      rewrite (abort_eq h c a _ w Hc Hi Hd).
      rewrite stored_length_inside; [exact Hn|].
      change (array_at (set_isAborted true w) a) with (array_at w a). lia.
    + unfold internals.abort, internals.closure_get. js_simpl. simpl closures.
      rewrite Hc. js_simpl. exact Hin.
Qed.

Lemma in_run_until_done a n base cs : forall w,
  in_run a n base w ->
  Forall (fun c => own_handle base (callee c) = true) cs ->
  length (array_at (invoke_until_done cs w) a) = n.
Proof.
  induction cs as [|c cs IH]; intros w Hin Hcs.
  - apply Hin.
  - inversion Hcs as [|? ? Hc Hcs']; subst.
    pose proof (in_run_invoke a n base w c Hin Hc) as Hstep.
    cbn [invoke_until_done].
    destruct (invoke c w) as [[[| |]|] w']; try (apply IH; assumption).
    exact Hstep.
Qed.

(** ** The claims *)

(** C1, as amended.  A handle is not tied to the run that made it.  After a
    new well-formed call on a non-empty array, the [next] of an earlier run
    stores a supplied value at its own index in the new array, increments
    its index, and calls the new [fn] for that index when it is inside the
    new array and the new [done] otherwise; the [abort] of an earlier run
    sets the flag of the new run, stores a supplied value at its index in
    the new array and calls the new [done]. *)
Theorem stale_handle_acts_on_new_run (w : world) (h : hid) (c : closure) (a : loc)
    (S0 : list value) (f d : value) (args : list value) :
  closures w !! h = Some c ->
  heap w !! a = Some S0 ->
  S0 <> [] ->
  callable f = true ->
  d = VUndefined \/ callable d = true ->
  let w1 := (iterate (VArr a) f d w).2 in
  let w2 := stored a (next_i c) (param 0 args) (bumped h c w1) in
  self w1 = Fields (Some a) f (done_or_noop d) false
  /\ array_at w1 a = S0
  /\ invoke (Call (VNext h) args) w1
     = (if decide (S (next_i c) < length (array_at w2 a))
        then (Ok (TailStep f (S (next_i c)) (array_get (array_at w2 a) (S (next_i c)))
                           (VNext (S (length (closures w))))),
              minted (S (next_i c)) w2)
        else (Ok (TailDone (done_or_noop d) (VArr a)), w2))
  /\ array_at w2 a
     = (if decide (param 0 args = VUndefined) then S0
        else array_set S0 (next_i c) (param 0 args))
  /\ invoke (Call (VAbort h) args) w1
     = (Ok (TailDone (done_or_noop d) (VArr a)),
        stored a (abort_i c) (param 0 args) (set_isAborted true w1))
  /\ array_at (invoke (Call (VAbort h) args) w1).2 a
     = (if decide (param 0 args = VUndefined) then S0
        else array_set S0 (abort_i c) (param 0 args)).
Proof.
  intros Hc Ha Hne Hf Hd. cbv zeta.
  assert (Hd' : callable (done_or_noop d) = true).
  { unfold done_or_noop. case_decide; [reflexivity|]. destruct Hd; [contradiction|assumption]. }
  assert (HS : array_at w a = S0) by (unfold array_at; rewrite Ha; reflexivity).
  rewrite iterate_valid by assumption. cbv zeta. rewrite HS.
  destruct (decide (length S0 <> 0)) as [_|Hz];
    [|destruct S0; [contradiction | simpl in Hz; lia]].
  cbn [snd].
  set (w1 := minted 0 _).
  assert (Hc1 : closures w1 !! h = Some c).
  { unfold w1, minted. simpl. rewrite lookup_app_l by (eapply lookup_lt_Some; exact Hc).
    exact Hc. }
  assert (Hl1 : length (closures w1) = S (length (closures w))).
  { unfold w1, minted. simpl. rewrite length_app. simpl. lia. }
  assert (HS1 : array_at w1 a = S0) by exact HS.
  split; [reflexivity|]. split; [exact HS1|].
  change (invoke (Call (VNext h) args) w1) with (internals.next h (param 0 args) w1).
  change (invoke (Call (VAbort h) args) w1) with (internals.abort h (param 0 args) w1).
  rewrite (next_eq h c a _ w1) by (try reflexivity; assumption).
  rewrite (abort_eq h c a _ w1) by (try reflexivity; assumption).
  cbv zeta. rewrite Hl1. split; [reflexivity|].
  cbn [snd]. rewrite !array_at_stored.
  change (array_at (bumped h c w1) a) with (array_at w1 a).
  change (array_at (set_isAborted true w1) a) with (array_at w1 a).
  rewrite HS1. repeat split; reflexivity.
Qed.

Lemma stale_handle_acts_on_new_run_witness :
  (closures Stale.first_run !! 0 = Some (Closure 0 0)
   /\ heap Stale.first_run !! 1 = Some [VNum 10; VNum 20; VNum 30]
   /\ [VNum 10; VNum 20; VNum 30] <> []
   /\ callable (VFun 2) = true
   /\ (VFun 3 = VUndefined \/ callable (VFun 3) = true))
  /\ (invoke (Call (VNext 0) [VNum 99]) Stale.second_run).1
     = Ok (TailStep (VFun 2) 1 (VNum 20) (VNext 2))
  /\ (invoke (Call (VAbort 0) [VNum 99]) Stale.second_run).1
     = Ok (TailDone (VFun 3) (VArr 1))
  /\ array_at (invoke (Call (VAbort 0) [VNum 99]) Stale.second_run).2 1
     = [VNum 99; VNum 20; VNum 30].
Proof.
  assert (H1 : closures Stale.first_run !! 0 = Some (Closure 0 0)) by reflexivity.
  assert (H2 : heap Stale.first_run !! 1 = Some [VNum 10; VNum 20; VNum 30])
    by reflexivity.
  assert (H3 : [VNum 10; VNum 20; VNum 30] <> []) by discriminate.
  assert (H4 : callable (VFun 2) = true) by reflexivity.
  assert (H5 : VFun 3 = VUndefined \/ callable (VFun 3) = true) by (right; reflexivity).
  split; [repeat split; assumption|].
  destruct (stale_handle_acts_on_new_run Stale.first_run 0 _ 1 _ (VFun 2) (VFun 3)
              [VNum 99] H1 H2 H3 H4 H5) as (_ & _ & E1 & _ & E2 & E3).
  unfold Stale.second_run.
  change (invoke (Call VIterate [VArr 1; VFun 2; VFun 3]) Stale.first_run)
    with (iterate (VArr 1) (VFun 2) (VFun 3) Stale.first_run).
  rewrite E1, E2. repeat split; reflexivity.
Defined.

(** C1 as stated fails.  With the [next] of a first run over [[1,2,3]]
    kept, and a second run over [[10,20,30]] started, calling the kept
    [next] with 99 stores 99 in the second array and calls the second [fn]
    for index 1; calling its [abort] with 99 stores 99 in the second array,
    sets the second run's flag and calls the second [done]. *)
Lemma stale_handle_reaches_new_run :
  ~ leaves_run_alone (Call (VNext 0) [VNum 99]) Stale.second_run
  /\ ~ leaves_run_alone (Call (VAbort 0) [VNum 99]) Stale.second_run
  /\ self Stale.second_run = Fields (Some 1) (VFun 2) (VFun 3) false
  /\ array_at Stale.second_run 1 = [VNum 10; VNum 20; VNum 30]
  /\ (invoke (Call (VNext 0) [VNum 99]) Stale.second_run).1
     = Ok (TailStep (VFun 2) 1 (VNum 20) (VNext 2))
  /\ array_at (invoke (Call (VNext 0) [VNum 99]) Stale.second_run).2 1
     = [VNum 99; VNum 20; VNum 30]
  /\ (invoke (Call (VAbort 0) [VNum 99]) Stale.second_run).1
     = Ok (TailDone (VFun 3) (VArr 1))
  /\ array_at (invoke (Call (VAbort 0) [VNum 99]) Stale.second_run).2 1
     = [VNum 99; VNum 20; VNum 30]
  /\ isAborted (self (invoke (Call (VAbort 0) [VNum 99]) Stale.second_run).2) = true.
Proof.
  assert (E1 : invoke (Call (VNext 0) [VNum 99]) Stale.second_run
               = (Ok (TailStep (VFun 2) 1 (VNum 20) (VNext 2)),
                  (invoke (Call (VNext 0) [VNum 99]) Stale.second_run).2))
    by (vm_compute; reflexivity).
  assert (E2 : invoke (Call (VAbort 0) [VNum 99]) Stale.second_run
               = (Ok (TailDone (VFun 3) (VArr 1)),
                  (invoke (Call (VAbort 0) [VNum 99]) Stale.second_run).2))
    by (vm_compute; reflexivity).
  split; [unfold leaves_run_alone; rewrite E1; intros []|].
  split; [unfold leaves_run_alone; rewrite E2; intros []|].
  repeat split; vm_compute; reflexivity.
Qed.

(** C2, as amended.  Once the flag [isAborted] is set, and every call of an
    [abort] handle sets it, calls of [next] handles return at once: whatever
    the handle and its argument, nothing is stored, no index moves, and
    neither [fn] nor [done] is called. *)
Theorem advance_after_abort (w : world) (cs : list call) :
  isAborted (self w) = true ->
  Forall (fun c => is_next (callee c) = true) cs ->
  invoke_all cs w = (map (fun _ => Ok Returned) cs, w)
  /\ Forall (fun c => leaves_run_alone c w) cs
  /\ forall h args w0, isAborted (self (invoke (Call (VAbort h) args) w0).2) = true.
Proof.
  intros Hab Hcs. split; [apply invoke_all_next_aborted; assumption|]. split.
  - eapply Forall_impl; [exact Hcs|]. intros [v args] Hv.
    destruct v; try discriminate Hv. unfold leaves_run_alone.
    change (invoke _ w) with (internals.next h (param 0 args) w).
    rewrite next_aborted by exact Hab. intros; reflexivity.
  - intros h args w0. apply abort_sets_flag.
Qed.

Lemma advance_after_abort_witness :
  isAborted (self Stale.aborted) = true
  /\ Forall (fun c => is_next (callee c) = true)
            [Call (VNext 0) [VNum 5]; Call (VNext 0) []]
  /\ invoke_all [Call (VNext 0) [VNum 5]; Call (VNext 0) []] Stale.aborted
     = ([Ok Returned; Ok Returned], Stale.aborted).
Proof.
  assert (H1 : isAborted (self Stale.aborted) = true) by reflexivity.
  assert (H2 : Forall (fun c => is_next (callee c) = true)
                      [Call (VNext 0) [VNum 5]; Call (VNext 0) []])
    by (repeat constructor).
  split; [exact H1|]. split; [exact H2|].
  exact (proj1 (advance_after_abort Stale.aborted _ H1 H2)).
Defined.

(** C2 as stated fails after a natural finish: the flag is still [false],
    so the [next] of index 0 of the finished run over [[1]], called again
    with 6, stores 6 past the end and calls [done] again. *)
Lemma advance_after_natural_finish :
  ~ leaves_run_alone (Call (VNext 0) [VNum 6]) Stale.finished
  /\ isAborted (self Stale.finished) = false
  /\ (invoke (Call (VNext 0) [VNum 6]) Stale.finished).1
     = Ok (TailDone (VFun 1) (VArr 0))
  /\ array_at Stale.finished 0 = [VNum 1]
  /\ array_at (invoke (Call (VNext 0) [VNum 6]) Stale.finished).2 0
     = [VNum 1; VNum 6].
Proof.
  split; [|repeat split; vm_compute; reflexivity].
  unfold leaves_run_alone.
  assert (E : invoke (Call (VNext 0) [VNum 6]) Stale.finished
              = (Ok (TailDone (VFun 1) (VArr 0)),
                 (invoke (Call (VNext 0) [VNum 6]) Stale.finished).2)).
  { vm_compute. reflexivity. }
  rewrite E. intros [].
Qed.

(** C3.  The step function [f] answers every index at once by calling the
    [next] it was given, with the arguments [r i v] (none, or a replacement),
    and [d] calls nothing.  Then the call [iterate(xs, f, d)] on a non-empty
    [xs] runs to the end: [f] is called for the indices 0, 1, ... in order,
    each with the original element, and then [d] is called, once, with the
    array in which every position holds its replacement when one was passed
    and its original element otherwise. *)
Theorem sync_advance_completes_once (prog : nat -> list value -> list call)
    (r : nat -> value -> list value) (f d : nat) (w : world) (a : loc)
    (xs : list value) (fuel : nat) :
  (forall i v n, prog f [VNum (Z.of_nat i); v; n] = [Call n (r i v)]) ->
  (forall its, prog d [its] = []) ->
  heap w !! a = Some xs ->
  xs <> [] ->
  2 * length xs + 2 <= fuel ->
  let res := run prog fuel [Call VIterate [VArr a; VFun f; VFun d]] w in
  res.1.1 = step_events (VFun f) xs (length (closures w)) 0 (length xs)
              ++ [EvDone (VFun d) (VArr a) (walked r xs)]
  /\ res.1.2 = []
  /\ done_calls res.1.1 = [walked r xs]
  /\ step_indices res.1.1 = seq 0 (length xs)
  /\ array_at res.2 a = walked r xs
  /\ length (walked r xs) = length xs
  /\ (forall i v, xs !! i = Some v ->
        walked r xs !! i = Some (replaced (param 0 (r i v)) v))
  /\ (forall i v x, xs !! i = Some v -> param 0 (r i v) = x -> x <> VUndefined ->
        walked r xs !! i = Some x)
  /\ (forall i v, xs !! i = Some v -> r i v = [] -> walked r xs !! i = Some v)
  /\ ((forall i v, r i v = []) -> walked r xs = xs).
Proof.
  intros Hp Hd Ha Hne Hfuel. cbv zeta.
  destruct (sync_walk prog r f d w a xs Hp Hd Ha Hne) as (w' & E & Harr & _).
  replace fuel with (2 * length xs + 2 + (fuel - (2 * length xs + 2))) by lia.
  rewrite run_more by (rewrite E; reflexivity).
  rewrite E. cbn [fst snd].
  split; [reflexivity|]. split; [reflexivity|].
  split; [rewrite done_calls_step_events; reflexivity|].
  split; [rewrite step_indices_step_events; apply app_nil_r|].
  split; [exact Harr|]. split; [apply walked_length|].
  split; [intros i v; apply walked_lookup|].
  split; [|split].
  - intros i v x Hv Hx Hx'. rewrite (walked_lookup r xs i v Hv), Hx.
    unfold replaced. case_decide; [contradiction | reflexivity].
  - intros i v Hv Hr. rewrite (walked_lookup r xs i v Hv), Hr. reflexivity.
  - intros Hr. apply walked_unchanged. intros i v. rewrite Hr. reflexivity.
Qed.

Lemma sync_advance_completes_once_witness :
  ((forall i v n, Scenario.doubling 0 [VNum (Z.of_nat i); v; n]
                  = [Call n [match v with VNum k => VNum (k * 2) | _ => VNaN end]])
   /\ (forall its, Scenario.doubling 1 [its] = [])
   /\ heap (init Scenario.heap123) !! 0 = Some [VNum 1; VNum 2; VNum 3]
   /\ [VNum 1; VNum 2; VNum 3] <> []
   /\ 2 * length [VNum 1; VNum 2; VNum 3] + 2 <= 8)
  /\ done_calls (run Scenario.doubling 8 [Call VIterate [VArr 0; VFun 0; VFun 1]]
                     (init Scenario.heap123)).1.1
     = [[VNum 2; VNum 4; VNum 6]].
Proof.
  assert (H1 : forall i v n, Scenario.doubling 0 [VNum (Z.of_nat i); v; n]
               = [Call n [match v with VNum k => VNum (k * 2) | _ => VNaN end]])
    by reflexivity.
  assert (H2 : forall its, Scenario.doubling 1 [its] = []) by reflexivity.
  assert (H3 : heap (init Scenario.heap123) !! 0 = Some [VNum 1; VNum 2; VNum 3])
    by reflexivity.
  assert (H4 : [VNum 1; VNum 2; VNum 3] <> []) by discriminate.
  assert (H5 : 2 * length [VNum 1; VNum 2; VNum 3] + 2 <= 8) by (simpl; lia).
  split; [repeat split; assumption|].
  destruct (sync_advance_completes_once Scenario.doubling _ 0 1 _ 0 _ 8
              H1 H2 H3 H4 H5) as (_ & _ & E & _).
  rewrite E. reflexivity.
Defined.

(** C4.  The step function [f] answers the indices below [k] at once and,
    at index [k], calls the [abort] of the [next] it was given, with the
    arguments [ab v]; [d] calls nothing.  Then [f] is called for the indices
    0 to [k] and for no other, and the next thing that happens is the call
    of [d], once.  The array it gets has the element of [abort] at [k] (the
    original one when [abort] was given nothing), the original elements
    above [k], and below [k] what the earlier steps left, which are the
    original elements when they passed nothing. *)
Theorem abort_ends_walk (prog : nat -> list value -> list call)
    (r : nat -> value -> list value) (ab : value -> list value) (f d : nat)
    (w : world) (a : loc) (xs : list value) (k fuel : nat) :
  (forall i v n, i < k -> prog f [VNum (Z.of_nat i); v; n] = [Call n (r i v)]) ->
  (forall v n, prog f [VNum (Z.of_nat k); v; n] = [Call (abort_of n) (ab v)]) ->
  (forall its, prog d [its] = []) ->
  heap w !! a = Some xs ->
  k < length xs ->
  2 * k + 4 <= fuel ->
  let xk := array_get xs k in
  let delivered :=
    take k (walked r xs) ++ replaced (param 0 (ab xk)) xk :: drop (S k) xs in
  let res := run prog fuel [Call VIterate [VArr a; VFun f; VFun d]] w in
  res.1.1 = step_events (VFun f) xs (length (closures w)) 0 (S k)
              ++ [EvDone (VFun d) (VArr a) delivered]
  /\ res.1.2 = []
  /\ step_indices res.1.1 = seq 0 (S k)
  /\ done_calls res.1.1 = [delivered]
  /\ array_at res.2 a = delivered
  /\ isAborted (self res.2) = true
  /\ delivered !! k = Some (replaced (param 0 (ab xk)) xk)
  /\ (forall x, param 0 (ab xk) = x -> x <> VUndefined -> delivered !! k = Some x)
  /\ (forall j, k < j -> delivered !! j = xs !! j)
  /\ (forall j, j < k -> delivered !! j = walked r xs !! j)
  /\ ((forall i v, r i v = []) -> forall j, j < k -> delivered !! j = xs !! j)
  /\ (ab xk = [] -> forall j, k <= j -> delivered !! j = xs !! j).
Proof.
  intros Hp Hab Hd Ha Hk Hfuel. cbv zeta.
  destruct (abort_walk prog r ab f d w a xs k Hp Hab Hd Ha Hk) as (w' & E & Harr & Hs).
  replace fuel with (2 * k + 4 + (fuel - (2 * k + 4))) by lia.
  rewrite run_more by (rewrite E; reflexivity).
  rewrite E. cbn [fst snd].
  set (x := replaced (param 0 (ab (array_get xs k))) (array_get xs k)) in *.
  assert (Hpre : length (take k (walked r xs)) = k).
  { rewrite length_take, walked_length. lia. }
  destruct (delivered_lookup (take k (walked r xs)) xs k x Hpre) as (L1 & L2 & L3).
  split; [reflexivity|]. split; [reflexivity|].
  split; [rewrite step_indices_step_events; apply app_nil_r|].
  split; [rewrite done_calls_step_events; reflexivity|].
  split; [exact Harr|]. split; [rewrite Hs; reflexivity|].
  split; [exact L1|].
  split.
  { intros y Hy Hy'. rewrite L1. unfold x, replaced. rewrite Hy.
    case_decide; [contradiction | reflexivity]. }
  split; [exact L2|].
  assert (L4 : forall j, j < k ->
            (take k (walked r xs) ++ x :: drop (S k) xs) !! j = walked r xs !! j).
  { intros j Hj. rewrite L3 by exact Hj. apply lookup_take_lt. exact Hj. }
  split; [exact L4|]. split.
  - intros Hr j Hj. rewrite L4 by exact Hj.
    rewrite walked_unchanged by (intros i v; rewrite Hr; reflexivity).
    reflexivity.
  - intros Hu j Hj. destruct (decide (j = k)) as [->|Hne]; [|apply L2; lia].
    rewrite L1. unfold x, replaced. rewrite Hu. simpl.
    unfold array_get. destruct (lookup_lt_is_Some_2 xs k Hk) as [v Hv].
    rewrite Hv. reflexivity.
Qed.

Lemma abort_ends_walk_witness :
  ((forall i v n, i < 1 -> Scenario.abort_at_1 0 [VNum (Z.of_nat i); v; n]
                           = [Call n []])
   /\ (forall v n, Scenario.abort_at_1 0 [VNum (Z.of_nat 1); v; n]
                   = [Call (abort_of n) [VStr "X"]])
   /\ (forall its, Scenario.abort_at_1 1 [its] = [])
   /\ heap (init Scenario.heap_abc) !! 0 = Some [VStr "a"; VStr "b"; VStr "c"]
   /\ 1 < length [VStr "a"; VStr "b"; VStr "c"]
   /\ 2 * 1 + 4 <= 6)
  /\ done_calls (run Scenario.abort_at_1 6 [Call VIterate [VArr 0; VFun 0; VFun 1]]
                     (init Scenario.heap_abc)).1.1
     = [[VStr "a"; VStr "X"; VStr "c"]]
  /\ step_indices (run Scenario.abort_at_1 6 [Call VIterate [VArr 0; VFun 0; VFun 1]]
                       (init Scenario.heap_abc)).1.1
     = [0; 1].
Proof.
  assert (H1 : forall i v n, i < 1 ->
               Scenario.abort_at_1 0 [VNum (Z.of_nat i); v; n] = [Call n []]).
  { intros i v n Hi. destruct i; [reflexivity | lia]. }
  assert (H2 : forall v n, Scenario.abort_at_1 0 [VNum (Z.of_nat 1); v; n]
                           = [Call (abort_of n) [VStr "X"]]) by reflexivity.
  assert (H3 : forall its, Scenario.abort_at_1 1 [its] = []) by reflexivity.
  assert (H4 : heap (init Scenario.heap_abc) !! 0
               = Some [VStr "a"; VStr "b"; VStr "c"]) by reflexivity.
  assert (H5 : 1 < length [VStr "a"; VStr "b"; VStr "c"]) by (simpl; lia).
  assert (H6 : 2 * 1 + 4 <= 6) by lia.
  split; [repeat split; assumption|].
  destruct (abort_ends_walk Scenario.abort_at_1 (fun _ _ => []) (fun _ => [VStr "X"])
              0 1 _ 0 _ 1 6 H1 H2 H3 H4 H5 H6) as (_ & _ & E1 & E2 & _).
  rewrite E1, E2. split; reflexivity.
Defined.

(** C5.  [abort] does not read [isAborted]: in every state where the run's
    array and [done] are in place, finished or not, aborted or not, it sets
    the flag, stores a supplied value at the index it was made for, and
    ends in [done(items)]. *)
Theorem abort_acts_unconditionally (w : world) (h : hid) (c : closure) (a : loc)
    (args : list value) :
  closures w !! h = Some c ->
  items (self w) = Some a ->
  callable (done (self w)) = true ->
  invoke (Call (VAbort h) args) w
  = (Ok (TailDone (done (self w)) (VArr a)),
     stored a (abort_i c) (param 0 args) (set_isAborted true w))
  /\ array_at (invoke (Call (VAbort h) args) w).2 a
     = if decide (param 0 args = VUndefined) then array_at w a
       else array_set (array_at w a) (abort_i c) (param 0 args).
Proof.
  intros Hc Ha Hd.
  change (invoke _ w) with (internals.abort h (param 0 args) w).
  rewrite (abort_eq h c a) by assumption. split; [reflexivity|].
  simpl snd. rewrite array_at_stored. reflexivity.
Qed.

Lemma abort_acts_unconditionally_witness :
  (closures Stale.finished !! 0 = Some (Closure 1 0)
   /\ items (self Stale.finished) = Some 0
   /\ callable (done (self Stale.finished)) = true)
  /\ (invoke (Call (VAbort 0) [VNum 5]) Stale.finished).1
     = Ok (TailDone (VFun 1) (VArr 0))
  /\ array_at (invoke (Call (VAbort 0) [VNum 5]) Stale.finished).2 0 = [VNum 5]
  /\ (invoke (Call (VAbort 0) [VNum 7]) Stale.aborted).1
     = Ok (TailDone (VFun 1) (VArr 0))
  /\ array_at (invoke (Call (VAbort 0) [VNum 7]) Stale.aborted).2 0
     = [VNum 7; VNum 2; VNum 3].
Proof.
  assert (H1 : closures Stale.finished !! 0 = Some (Closure 1 0)) by reflexivity.
  assert (H2 : items (self Stale.finished) = Some 0) by reflexivity.
  assert (H3 : callable (done (self Stale.finished)) = true) by reflexivity.
  assert (G1 : closures Stale.aborted !! 0 = Some (Closure 0 0)) by reflexivity.
  assert (G2 : items (self Stale.aborted) = Some 0) by reflexivity.
  assert (G3 : callable (done (self Stale.aborted)) = true) by reflexivity.
  split; [repeat split; assumption|].
  destruct (abort_acts_unconditionally Stale.finished 0 _ 0 [VNum 5] H1 H2 H3)
    as [E1 E2].
  destruct (abort_acts_unconditionally Stale.aborted 0 _ 0 [VNum 7] G1 G2 G3)
    as [F1 F2].
  split; [rewrite E1; reflexivity|]. split; [rewrite E2; reflexivity|].
  split; [rewrite F1; reflexivity|]. rewrite F2; reflexivity.
Defined.

(** C6, as amended.  A call that fails one of the three checks throws the
    [TypeError] of that check and calls neither [fn] nor [done]; no array
    is touched and no closure is made.  The properties of [internals] do
    change: the flag is cleared, and the parameters checked before the
    failing one are stored, the others being [null]. *)
Theorem invalid_call_throws (w : world) (its f d : value) :
  valid_call its f d = false ->
  iterate its f d w
  = (Throw (TypeError (rejection its f d)),
     World (rejected its f) (heap w) (closures w)).
Proof.
  intros Hv. unfold iterate, internals.reset, rejection. js_simpl.
  destruct (isArray its) eqn:Hi.
  - destruct its; try discriminate Hi. cbn [internals.validateItemsParam].
    js_simpl. unfold internals.validateFnParam, rejected.
    unfold valid_call in Hv. cbn [isArray andb negb] in Hv |- *.
    destruct (callable f) eqn:Hf; unfold callable in Hf; rewrite Hf; cbn [negb].
    + js_simpl. unfold internals.validateDoneParam.
      cbn [andb] in Hv. apply orb_false_iff in Hv as [Hu Hc].
      apply bool_decide_eq_false in Hu.
      destruct (String.eqb (typeof d) "undefined") eqn:E.
      { apply typeof_undefined in E. contradiction. }
      unfold callable in Hc. rewrite Hc. cbn [negb]. js_simpl.
      reflexivity.
    + js_simpl. reflexivity.
  - unfold internals.validateItemsParam, rejected.
    destruct its; try discriminate Hi; js_simpl; reflexivity.
Qed.

Lemma invalid_call_throws_witness :
  valid_call (VArr 1) (VNum 5) VUndefined = false
  /\ iterate (VArr 1) (VNum 5) VUndefined Stale.aborted
     = (Throw (TypeError (dq +:+ "fn" +:+ dq +:+ " must be a function. Got "
                             +:+ dq +:+ "number" +:+ dq)),
        World (Fields (Some 1) VNull VNull false)
              (heap Stale.aborted) (closures Stale.aborted)).
Proof.
  assert (H : valid_call (VArr 1) (VNum 5) VUndefined = false) by reflexivity.
  split; [exact H|].
  exact (invalid_call_throws Stale.aborted (VArr 1) (VNum 5) VUndefined H).
Defined.

(** C6 as stated fails: after an aborted run, the rejected call
    [iterate(5, f0)] clears the flag and sets [items] to [null], and the
    [next] of the earlier run, which returned at once before the call,
    throws on [null] after it. *)
Lemma invalid_call_resets :
  (iterate (VNum 5) (VFun 0) VUndefined Stale.aborted).2 <> Stale.aborted
  /\ self Stale.aborted = Fields (Some 0) (VFun 0) (VFun 1) true
  /\ self (iterate (VNum 5) (VFun 0) VUndefined Stale.aborted).2
     = Fields None VNull VNull false
  /\ invoke (Call (VNext 0) []) Stale.aborted = (Ok Returned, Stale.aborted)
  /\ (invoke (Call (VNext 0) [])
        (iterate (VNum 5) (VFun 0) VUndefined Stale.aborted).2).1
     = Throw NullAccess.
Proof.
  split.
  - intros E. apply (f_equal (fun x => isAborted (self x))) in E.
    vm_compute in E. discriminate E.
  - repeat split; vm_compute; reflexivity.
Qed.

(** C7, as amended.  After a well-formed call of [iterate], whatever
    handles made since that call are called, in whatever order and with
    whatever arguments, the array has the length it had at the call, up to
    and including the first call that ends in [done]. *)
Theorem length_fixed_until_done (w : world) (a : loc) (xs : list value)
    (f d : value) (cs : list call) :
  heap w !! a = Some xs ->
  callable f = true ->
  d = VUndefined \/ callable d = true ->
  Forall (fun c => own_handle (length (closures w)) (callee c) = true) cs ->
  length (array_at (invoke_until_done cs (iterate (VArr a) f d w).2) a)
  = length xs.
Proof.
  intros Ha Hf Hd Hcs.
  assert (HS : array_at w a = xs) by (unfold array_at; rewrite Ha; reflexivity).
  assert (Hd' : callable (done_or_noop d) = true).
  { unfold done_or_noop. case_decide; [reflexivity|].
    destruct Hd; [contradiction | assumption]. }
  apply (in_run_until_done a (length xs) (length (closures w))); [|exact Hcs].
  rewrite iterate_valid by assumption. cbv zeta. rewrite HS.
  destruct (decide (length xs <> 0)) as [Hne|He]; cbn [snd].
  - unfold in_run, minted.
    split; [reflexivity|]. split; [exact Hf|]. split; [exact Hd'|].
    split; [exact (f_equal length HS)|].
    intros h c Hb Hl. simpl in Hl. apply lookup_app_Some in Hl as [Hl|[_ Hl]].
    + apply lookup_lt_Some in Hl. lia.
    + apply list_lookup_singleton_Some in Hl as [_ <-]. simpl. lia.
  - unfold in_run.
    split; [reflexivity|]. split; [exact Hf|]. split; [exact Hd'|].
    split; [exact (f_equal length HS)|].
    intros h c Hb Hl. simpl in Hl. apply lookup_lt_Some in Hl. lia.
Qed.

Lemma length_fixed_until_done_witness :
  (heap (init Stale.two_arrays) !! 0 = Some [VNum 1; VNum 2; VNum 3]
   /\ callable (VFun 0) = true
   /\ (VFun 1 = VUndefined \/ callable (VFun 1) = true)
   /\ Forall (fun c => own_handle 0 (callee c) = true)
             [Call (VNext 0) [VNum 5]; Call (VNext 0) [VNum 6];
              Call (VAbort 1) [VNum 7]; Call (VNext 0) [VNum 8]])
  /\ length (array_at
               (invoke_until_done
                  [Call (VNext 0) [VNum 5]; Call (VNext 0) [VNum 6];
                   Call (VAbort 1) [VNum 7]; Call (VNext 0) [VNum 8]]
                  (iterate (VArr 0) (VFun 0) (VFun 1) (init Stale.two_arrays)).2)
               0)
     = 3.
Proof.
  assert (H1 : heap (init Stale.two_arrays) !! 0 = Some [VNum 1; VNum 2; VNum 3])
    by reflexivity.
  assert (H2 : callable (VFun 0) = true) by reflexivity.
  assert (H3 : VFun 1 = VUndefined \/ callable (VFun 1) = true) by (right; reflexivity).
  assert (H4 : Forall (fun c => own_handle (length (closures (init Stale.two_arrays)))
                                           (callee c) = true)
                      [Call (VNext 0) [VNum 5]; Call (VNext 0) [VNum 6];
                       Call (VAbort 1) [VNum 7]; Call (VNext 0) [VNum 8]])
    by (repeat constructor).
  split; [repeat split; assumption|].
  exact (length_fixed_until_done (init Stale.two_arrays) 0 _ (VFun 0) (VFun 1) _
                                 H1 H2 H3 H4).
Defined.

(** C7 as stated fails.  During a second run over [[9]], still at index 0,
    the [abort] made for index 2 of an earlier run over [[1,2,3]] stores at
    index 2 and the array grows to length 3; so does the [next] made for
    that index.  And within one run over [[1]], once it has finished, the
    [next] of index 0 called again with 6 stores at index 1. *)
Lemma handle_past_the_end_grows_array :
  ~ keeps_length (Call (VAbort 2) [VNum 7]) Stale.short_second_run
  /\ self Stale.short_second_run = Fields (Some 1) (VFun 2) (VFun 3) false
  /\ closures Stale.short_second_run
     = [Closure 1 0; Closure 2 1; Closure 2 2; Closure 0 0]
  /\ array_at Stale.short_second_run 1 = [VNum 9]
  /\ array_at (invoke (Call (VAbort 2) [VNum 7]) Stale.short_second_run).2 1
     = [VNum 9; VUndefined; VNum 7]
  /\ array_at (invoke (Call (VNext 2) [VNum 7]) Stale.short_second_run).2 1
     = [VNum 9; VUndefined; VNum 7]
  /\ ~ keeps_length (Call (VNext 0) [VNum 6]) Stale.finished
  /\ array_at (invoke (Call (VNext 0) [VNum 6]) Stale.finished).2 0
     = [VNum 1; VNum 6].
Proof.
  split.
  { intros H. specialize (H 1 eq_refl). vm_compute in H. discriminate H. }
  do 5 (split; [vm_compute; reflexivity|]).
  split; [|vm_compute; reflexivity].
  intros H. specialize (H 0 eq_refl). vm_compute in H. discriminate H.
Qed.

(** C8.  On an empty array a well-formed call stores its three parameters
    and returns: line 213 is not reached, so no closure is made, [fn] is not
    called and [done] is not called, and the run of the call has no event. *)
Theorem empty_is_inert (prog : nat -> list value -> list call) (fuel : nat)
    (w : world) (a : loc) (f d : value) :
  heap w !! a = Some [] ->
  callable f = true ->
  d = VUndefined \/ callable d = true ->
  iterate (VArr a) f d w
  = (Ok Returned,
     World (Fields (Some a) f (done_or_noop d) false) (heap w) (closures w))
  /\ run prog (S fuel) [Call VIterate [VArr a; f; d]] w
     = ([], [],
        World (Fields (Some a) f (done_or_noop d) false) (heap w) (closures w)).
Proof.
  intros Ha Hf Hd.
  assert (E : iterate (VArr a) f d w
              = (Ok Returned,
                 World (Fields (Some a) f (done_or_noop d) false)
                       (heap w) (closures w))).
  { rewrite iterate_valid by assumption. cbv zeta.
    unfold array_at. rewrite Ha. reflexivity. }
  split; [exact E|].
  cbn [run]. unfold exec. cbn [callee].
  change (invoke _ w) with (iterate (VArr a) f d w). rewrite E.
  destruct fuel; reflexivity.
Qed.

Lemma empty_is_inert_witness :
  (({[ 0 := [] ]} : gmap loc (list value)) !! 0 = Some []
   /\ callable (VFun 0) = true
   /\ (VFun 1 = VUndefined \/ callable (VFun 1) = true))
  /\ run Scenario.doubling 5 [Call VIterate [VArr 0; VFun 0; VFun 1]]
         (init {[ 0 := [] ]})
     = ([], [], World (Fields (Some 0) (VFun 0) (VFun 1) false) {[ 0 := [] ]} []).
Proof.
  assert (H1 : heap (init {[ 0 := [] ]}) !! 0 = Some []) by reflexivity.
  assert (H2 : callable (VFun 0) = true) by reflexivity.
  assert (H3 : VFun 1 = VUndefined \/ callable (VFun 1) = true)
    by (right; reflexivity).
  split; [repeat split; assumption|].
  exact (proj2 (empty_is_inert Scenario.doubling 4 (init {[ 0 := [] ]}) 0
                               (VFun 0) (VFun 1) H1 H2 H3)).
Defined.

(** C9.  In a run that is not aborted, take the [next] made for index [i],
    with [i + 1] inside the array.  Its first call leaves its variable at
    [i + 1] and dispatches index [i + 1] with a new handle.  Its second call
    stores at [i + 1], not at [i], moves its variable to [i + 2], and goes
    on from there: it calls [fn] for index [i + 2], with the element of that
    index and a new handle, when [i + 2] is inside the array, and it calls
    [done] with the array otherwise.  That is exactly how the call of the
    handle made for index [i + 1] would end: same completion, same heap,
    same properties of [internals]. *)
Theorem second_call_targets_next_index (w : world) (h : hid) (i : nat) (a : loc)
    (args1 args2 : list value) :
  isAborted (self w) = false ->
  items (self w) = Some a ->
  callable (fn (self w)) = true ->
  callable (done (self w)) = true ->
  closures w !! h = Some (Closure i i) ->
  S i < length (array_at w a) ->
  let r1 := invoke (Call (VNext h) args1) w in
  let r2 := invoke (Call (VNext h) args2) r1.2 in
  let r2' := invoke (Call (VNext (length (closures w))) args2) r1.2 in
  r1.1 = Ok (TailStep (fn (self w)) (S i) (array_get (array_at r1.2 a) (S i))
                      (VNext (length (closures w))))
  /\ closures r1.2 !! h = Some (Closure (S i) i)
  /\ closures r1.2 !! length (closures w) = Some (Closure (S i) (S i))
  /\ array_at r2.2 a
     = (if decide (param 0 args2 = VUndefined) then array_at r1.2 a
        else <[S i := param 0 args2]> (array_at r1.2 a))
  /\ closures r2.2 !! h = Some (Closure (S (S i)) i)
  /\ r2.1 = (if decide (S (S i) < length (array_at w a))
             then Ok (TailStep (fn (self w)) (S (S i))
                               (array_get (array_at w a) (S (S i)))
                               (VNext (S (length (closures w)))))
             else Ok (TailDone (done (self w)) (VArr a)))
  /\ length (array_at r2.2 a) = length (array_at w a)
  /\ r2.1 = r2'.1
  /\ heap r2.2 = heap r2'.2
  /\ self r2.2 = self r2'.2.
Proof.
  intros Hab Ha Hf Hd Hc Hlen. cbv zeta.
  assert (Hh : h < length (closures w)) by (eapply lookup_lt_Some; exact Hc).
  change (invoke (Call (VNext h) args1) w)
    with (internals.next h (param 0 args1) w).
  rewrite (next_eq h _ a _ w Hab Hc Ha Hf Hd). cbv zeta. cbn [next_i abort_i].
  set (w1 := stored a i (param 0 args1) (bumped h (Closure i i) w)).
  assert (Hl1 : length (array_at w1 a) = length (array_at w a)).
  { unfold w1. rewrite stored_length_inside; [reflexivity|].
    change (array_at (bumped _ _ w) a) with (array_at w a). lia. }
  assert (Hs1 : self w1 = self w) by (unfold w1; rewrite stored_self; reflexivity).
  assert (Hc1 : closures w1 = <[h := Closure (S i) i]> (closures w)).
  { unfold w1. rewrite stored_closures. reflexivity. }
  destruct (decide (S i < length (array_at w1 a))) as [_|Hn]; [|lia].
  cbn [fst snd].
  set (u := minted (S i) w1).
  assert (Hsu : self u = self w) by exact Hs1.
  assert (Hcu : closures u = <[h := Closure (S i) i]> (closures w) ++ [Closure (S i) (S i)]).
  { unfold u, minted. simpl. rewrite Hc1. reflexivity. }
  assert (Hau : array_at u a = array_at w1 a) by reflexivity.
  assert (Hch : closures u !! h = Some (Closure (S i) i)).
  { rewrite Hcu, lookup_app_l by (rewrite length_insert; exact Hh).
    apply list_lookup_insert_eq. exact Hh. }
  assert (Hcn : closures u !! length (closures w) = Some (Closure (S i) (S i))).
  { rewrite Hcu. rewrite lookup_app_r by (rewrite length_insert; lia).
    rewrite length_insert, Nat.sub_diag. reflexivity. }
  split; [reflexivity|]. split; [exact Hch|]. split; [exact Hcn|].
  change (invoke (Call (VNext h) args2) u)
    with (internals.next h (param 0 args2) u).
  change (invoke (Call (VNext (length (closures w))) args2) u)
    with (internals.next (length (closures w)) (param 0 args2) u).
  assert (Habu : isAborted (self u) = false) by (rewrite Hsu; exact Hab).
  assert (Hiu : items (self u) = Some a) by (rewrite Hsu; exact Ha).
  assert (Hfu : callable (fn (self u)) = true) by (rewrite Hsu; exact Hf).
  assert (Hdu : callable (done (self u)) = true) by (rewrite Hsu; exact Hd).
  rewrite (next_eq h _ a _ u Habu Hch Hiu Hfu Hdu).
  rewrite (next_eq (length (closures w)) _ a _ u Habu Hcn Hiu Hfu Hdu).
  cbv zeta. cbn [next_i abort_i].
  set (v := param 0 args2).
  set (x := stored a (S i) v (bumped h (Closure (S i) i) u)).
  set (y := stored a (S i) v (bumped (length (closures w)) (Closure (S i) (S i)) u)).
  assert (Hxy : heap x = heap y) by (unfold x, y; rewrite !heap_stored; reflexivity).
  assert (Hax : array_at x a = array_at y a) by (apply array_at_heap; exact Hxy).
  assert (Hsx : self x = self y) by (unfold x, y; rewrite !stored_self; reflexivity).
  assert (Hcx : closures x = <[h := Closure (S (S i)) i]> (closures u)).
  { unfold x. rewrite stored_closures. reflexivity. }
  assert (Hlx : length (closures x) = length (closures u)).
  { rewrite Hcx. apply length_insert. }
  assert (Hxh : closures x !! h = Some (Closure (S (S i)) i)).
  { rewrite Hcx. apply list_lookup_insert_eq. eapply lookup_lt_Some; exact Hch. }
  assert (Hxa : array_at x a
                = if decide (v = VUndefined) then array_at u a
                  else <[S i := v]> (array_at u a)).
  { unfold x. rewrite array_at_stored.
    change (array_at (bumped _ _ u) a) with (array_at u a).
    case_decide; [reflexivity|]. apply array_set_inside. rewrite Hau, Hl1. exact Hlen. }
  rewrite <- Hax.
  assert (Hlxa : length (array_at x a) = length (array_at w a)).
  { rewrite Hxa, Hau. destruct (decide (v = VUndefined)); [exact Hl1|].
    rewrite length_insert. exact Hl1. }
  assert (Hlu : length (closures u) = S (length (closures w))).
  { rewrite Hcu, length_app, length_insert. simpl. lia. }
  assert (Hw1 : array_at w1 a
                = if decide (param 0 args1 = VUndefined) then array_at w a
                  else <[i := param 0 args1]> (array_at w a)).
  { unfold w1. rewrite array_at_stored.
    change (array_at (bumped _ _ w) a) with (array_at w a).
    destruct (decide (param 0 args1 = VUndefined)); [reflexivity|].
    apply array_set_inside. lia. }
  assert (Hget : array_get (array_at x a) (S (S i))
                 = array_get (array_at w a) (S (S i))).
  { unfold array_get. rewrite Hxa, Hau, Hw1.
    destruct (decide (v = VUndefined)), (decide (param 0 args1 = VUndefined));
      rewrite ?list_lookup_insert_ne by lia; reflexivity. }
  destruct (decide (S (S i) < length (array_at x a))) as [Hin|Hout]; cbn [fst snd].
  - split; [exact Hxa|]. split.
    { unfold minted. simpl. rewrite lookup_app_l by (rewrite Hlx; eapply lookup_lt_Some; exact Hch).
      exact Hxh. }
    split.
    { rewrite Hsu, Hget, Hlu.
      destruct (decide (S (S i) < length (array_at w a))); [reflexivity | lia]. }
    split; [exact Hlxa|].
    repeat split; [exact Hxy | exact Hsx].
  - split; [exact Hxa|]. split; [exact Hxh|].
    split.
    { rewrite Hsu.
      destruct (decide (S (S i) < length (array_at w a))); [lia | reflexivity]. }
    split; [exact Hlxa|].
    repeat split; [exact Hxy | exact Hsx].
Qed.

Lemma second_call_targets_next_index_witness :
  (isAborted (self Stale.first_run) = false
   /\ items (self Stale.first_run) = Some 0
   /\ callable (fn (self Stale.first_run)) = true
   /\ callable (done (self Stale.first_run)) = true
   /\ closures Stale.first_run !! 0 = Some (Closure 0 0)
   /\ 1 < length (array_at Stale.first_run 0))
  /\ array_at (invoke (Call (VNext 0) [VNum 8])
                 (invoke (Call (VNext 0) [VNum 7]) Stale.first_run).2).2 0
     = [VNum 7; VNum 8; VNum 3]
  /\ (invoke (Call (VNext 0) [VNum 8])
        (invoke (Call (VNext 0) [VNum 7]) Stale.first_run).2).1
     = Ok (TailStep (VFun 0) 2 (VNum 3) (VNext 2))
  /\ (isAborted (self Stale.pair_run) = false
      /\ items (self Stale.pair_run) = Some 0
      /\ callable (fn (self Stale.pair_run)) = true
      /\ callable (done (self Stale.pair_run)) = true
      /\ closures Stale.pair_run !! 0 = Some (Closure 0 0)
      /\ 1 < length (array_at Stale.pair_run 0))
  /\ (invoke (Call (VNext 0) [VNum 8])
        (invoke (Call (VNext 0) [VNum 7]) Stale.pair_run).2).1
     = Ok (TailDone (VFun 1) (VArr 0))
  /\ array_at (invoke (Call (VNext 0) [VNum 8])
                 (invoke (Call (VNext 0) [VNum 7]) Stale.pair_run).2).2 0
     = [VNum 7; VNum 8].
Proof.
  assert (H1 : isAborted (self Stale.first_run) = false) by reflexivity.
  assert (H2 : items (self Stale.first_run) = Some 0) by reflexivity.
  assert (H3 : callable (fn (self Stale.first_run)) = true) by reflexivity.
  assert (H4 : callable (done (self Stale.first_run)) = true) by reflexivity.
  assert (H5 : closures Stale.first_run !! 0 = Some (Closure 0 0)) by reflexivity.
  assert (H6 : 1 < length (array_at Stale.first_run 0)) by (vm_compute; lia).
  split; [repeat split; assumption|].
  destruct (second_call_targets_next_index Stale.first_run 0 0 0
              [VNum 7] [VNum 8] H1 H2 H3 H4 H5 H6) as (_ & _ & _ & E & _ & E' & _).
  split; [rewrite E; reflexivity|].
  split; [rewrite E'; reflexivity|].
  assert (G1 : isAborted (self Stale.pair_run) = false) by reflexivity.
  assert (G2 : items (self Stale.pair_run) = Some 0) by reflexivity.
  assert (G3 : callable (fn (self Stale.pair_run)) = true) by reflexivity.
  assert (G4 : callable (done (self Stale.pair_run)) = true) by reflexivity.
  assert (G5 : closures Stale.pair_run !! 0 = Some (Closure 0 0)) by reflexivity.
  assert (G6 : 1 < length (array_at Stale.pair_run 0)) by (vm_compute; lia).
  split; [repeat split; assumption|].
  destruct (second_call_targets_next_index Stale.pair_run 0 0 0
              [VNum 7] [VNum 8] G1 G2 G3 G4 G5 G6) as (_ & _ & _ & F & _ & F' & _).
  split; [rewrite F' | rewrite F]; reflexivity.
Defined.

(** C10.  Passing [undefined] to [next] or to [abort] is the same as
    passing nothing: the call ends the same way in the same state, and
    [updateVal] stores nothing, so the heap is the one before the call. *)
Theorem undefined_is_absent (h : hid) (i : nat) (w : world) :
  invoke (Call (VNext h) [VUndefined]) w = invoke (Call (VNext h) []) w
  /\ invoke (Call (VAbort h) [VUndefined]) w = invoke (Call (VAbort h) []) w
  /\ internals.updateVal i VUndefined w = (Ok tt, w)
  /\ heap (invoke (Call (VNext h) [VUndefined]) w).2 = heap w
  /\ heap (invoke (Call (VAbort h) [VUndefined]) w).2 = heap w.
Proof.
  split; [reflexivity|]. split; [reflexivity|]. split; [reflexivity|].
  assert (Hfin : forall w', heap (internals.finish w').2 = heap w').
  { intros w'. unfold internals.finish. js_simpl.
    destruct (String.eqb _ _); reflexivity. }
  assert (Hit : forall j w', heap (internals.iterate j w').2 = heap w').
  { intros j w'. unfold internals.iterate, internals.items_get, internals.step.
    js_simpl. destruct (items (self w')); js_simpl; [|reflexivity].
    destruct (String.eqb _ _); reflexivity. }
  split.
  - change (invoke _ w) with (internals.next h VUndefined w).
    unfold internals.next, internals.closure_get. js_simpl.
    destruct (isAborted (self w)); cbn [negb]; [reflexivity|].
    js_simpl. destruct (closures w !! h) as [c|]; js_simpl; [|reflexivity].
    rewrite (bind_ok _ _ _ _ _ (updateVal_undefined _ _)).
    unfold internals.items_length. js_simpl. simpl items.
    destruct (items (self w)); js_simpl; [|reflexivity].
    case_decide; [rewrite Hit | rewrite Hfin]; reflexivity.
  - change (invoke _ w) with (internals.abort h VUndefined w).
    unfold internals.abort, internals.closure_get. js_simpl. simpl closures.
    destruct (closures w !! h) as [c|]; js_simpl; [|reflexivity].
    rewrite (bind_ok _ _ _ _ _ (updateVal_undefined _ _)).
    rewrite Hfin. reflexivity.
Qed.

(** ** Further properties *)

(** *** The functions of [internals], in every state *)

Lemma updateVal_full i v w :
  internals.updateVal i v w
  = if decide (v = VUndefined) then (Ok tt, w)
    else match items (self w) with
         | None => (Throw NullAccess, w)
         | Some a => (Ok tt, written a i v w)
         end.
Proof.
  unfold internals.updateVal. case_decide as Hv.
  - subst v. reflexivity.
  - destruct (String.eqb (typeof v) "undefined") eqn:E.
    + apply typeof_undefined in E. contradiction.
    + cbn [negb]. unfold internals.items_set. js_simpl.
      destruct (items (self w)); reflexivity.
Qed.

Lemma finish_full w :
  internals.finish w
  = (if callable (done (self w))
     then Ok (TailDone (done (self w)) (from_option VArr VNull (items (self w))))
     else Throw NotAFunction,
     w).
Proof.
  unfold internals.finish, callable. js_simpl.
  destruct (String.eqb (typeof (done (self w))) "function"); reflexivity.
Qed.

Lemma iterate_full i w :
  internals.iterate i w
  = match items (self w) with
    | None => (Throw NullAccess, w)
    | Some a =>
        (if callable (fn (self w))
         then Ok (TailStep (fn (self w)) i (array_get (array_at w a) i)
                           (VNext (length (closures w))))
         else Throw NotAFunction,
         minted i w)
    end.
Proof.
  unfold internals.iterate, internals.items_get, internals.step, callable.
  js_simpl. destruct (items (self w)); js_simpl; [|reflexivity].
  simpl. destruct (String.eqb (typeof (fn (self w))) "function"); reflexivity.
Qed.

Lemma next_full h v w :
  internals.next h v w
  = if isAborted (self w) then (Ok Returned, w)
    else match closures w !! h with
         | None => (Throw NoClosure, w)
         | Some c =>
             match internals.updateVal (next_i c) v (bumped h c w) with
             | (Ok _, w1) => next_tail (next_i c) w1
             | (Throw e, w1) => (Throw e, w1)
             end
         end.
Proof.
  unfold internals.next, internals.closure_get. js_simpl.
  destruct (isAborted (self w)); cbn [negb]; [reflexivity|].
  js_simpl. destruct (closures w !! h) as [c|]; js_simpl; [|reflexivity].
  fold (bumped h c w). unfold bind at 1.
  destruct (internals.updateVal (next_i c) v (bumped h c w)) as [[[]|e] w1];
    [|reflexivity].
  unfold next_tail, internals.items_length. js_simpl.
  destruct (items (self w1)); js_simpl; [|reflexivity].
  case_decide; reflexivity.
Qed.

Lemma abort_full h v w :
  internals.abort h v w
  = match closures w !! h with
    | None => (Throw NoClosure, set_isAborted true w)
    | Some c =>
        match internals.updateVal (abort_i c) v (set_isAborted true w) with
        | (Ok _, w1) => internals.finish w1
        | (Throw e, w1) => (Throw e, w1)
        end
    end.
Proof.
  unfold internals.abort, internals.closure_get. js_simpl. simpl closures.
  destruct (closures w !! h) as [c|]; js_simpl; [|reflexivity].
  unfold bind at 1.
  destruct (internals.updateVal (abort_i c) v (set_isAborted true w)) as [[[]|e] w1];
    reflexivity.
Qed.

(** *** The exported [iterate], in every state *)

Lemma iterate_rejected its f d w :
  valid_call its f d = false ->
  iterate its f d w
  = (Throw (TypeError (rejection its f d)),
     World (rejected its f) (heap w) (closures w)).
Proof.
  intros Hv. unfold iterate, internals.reset, rejection. js_simpl.
  destruct its; try (unfold internals.validateItemsParam, rejected; js_simpl;
                     reflexivity).
  cbn [internals.validateItemsParam isArray negb]. js_simpl.
  unfold internals.validateFnParam, rejected.
  unfold valid_call in Hv. cbn [isArray andb] in Hv.
  destruct (callable f) eqn:Hf; unfold callable in Hf; rewrite Hf; cbn [negb];
    js_simpl; [|reflexivity].
  unfold internals.validateDoneParam.
  cbn [andb] in Hv. apply orb_false_iff in Hv as [Hu Hc].
  apply bool_decide_eq_false in Hu.
  destruct (String.eqb (typeof d) "undefined") eqn:E.
  { apply typeof_undefined in E. contradiction. }
  unfold callable in Hc. rewrite Hc. cbn [negb]. js_simpl. reflexivity.
Qed.

Lemma valid_call_array its f d :
  valid_call its f d = true ->
  exists a, its = VArr a /\ callable f = true
            /\ (d = VUndefined \/ callable d = true).
Proof.
  unfold valid_call. intros H.
  apply andb_true_iff in H as [H Hd]. apply andb_true_iff in H as [Hi Hf].
  destruct its; try discriminate Hi. exists a. split; [reflexivity|].
  split; [exact Hf|].
  apply orb_true_iff in Hd as [Hd|Hd]; [left | right; exact Hd].
  apply bool_decide_eq_true in Hd. exact Hd.
Qed.



(** X2.  Nothing of the properties of [internals] outlives a call of
    [iterate]: whatever they held, and whether the call is accepted or
    rejected, the call ends the same way and leaves the same state.  The
    call writes to no array, and the closures made before it stay as they
    are, under their numbers, with at most the one of index 0 added. *)
Theorem iterate_starts_afresh (its f d : value) (w : world) (old : fields) :
  iterate its f d (World old (heap w) (closures w)) = iterate its f d w
  /\ heap (iterate its f d w).2 = heap w
  /\ (closures (iterate its f d w).2 = closures w
      \/ closures (iterate its f d w).2 = closures w ++ [Closure 0 0]).
Proof.
  destruct (valid_call its f d) eqn:Hv.
  - destruct (valid_call_array its f d Hv) as (a & -> & Hf & Hd).
    rewrite !iterate_valid by assumption. cbv zeta.
    change (array_at (World old (heap w) (closures w)) a) with (array_at w a).
    split; [reflexivity|].
    case_decide; (split; [reflexivity|]); [right | left]; reflexivity.
  - rewrite !(iterate_rejected its f d _ Hv).
    split; [reflexivity|]. split; [reflexivity|]. left. reflexivity.
Qed.

(** *** What a call can and cannot change *)

Lemma updateVal_frame i v w :
  self (internals.updateVal i v w).2 = self w
  /\ closures (internals.updateVal i v w).2 = closures w.
Proof.
  rewrite updateVal_full. case_decide; [split; reflexivity|].
  destruct (items (self w)); split; reflexivity.
Qed.

Lemma next_tail_frame i w1 :
  self (next_tail i w1).2 = self w1
  /\ heap (next_tail i w1).2 = heap w1
  /\ (closures (next_tail i w1).2 = closures w1
      \/ closures (next_tail i w1).2 = closures w1 ++ [Closure (S i) (S i)]).
Proof.
  unfold next_tail. destruct (items (self w1)) as [a|] eqn:Ha.
  - case_decide.
    + rewrite iterate_full, Ha. repeat split; try reflexivity. right. reflexivity.
    + rewrite finish_full. repeat split; try reflexivity. left. reflexivity.
  - repeat split; try reflexivity. left. reflexivity.
Qed.

(** X3.  The handles never touch [items], [fn] or [done], and they never
    clear the flag: [next] leaves the four properties as they are, and
    [abort] only sets [isAborted].  Only [iterate] gives the properties new
    values. *)
Theorem handles_keep_fields (h : hid) (args : list value) (w : world) :
  self (invoke (Call (VNext h) args) w).2 = self w
  /\ self (invoke (Call (VAbort h) args) w).2
     = Fields (items (self w)) (fn (self w)) (done (self w)) true.
Proof.
  change (invoke (Call (VNext h) args) w) with (internals.next h (param 0 args) w).
  change (invoke (Call (VAbort h) args) w) with (internals.abort h (param 0 args) w).
  split.
  - rewrite next_full. destruct (isAborted (self w)); [reflexivity|].
    destruct (closures w !! h) as [c|]; [|reflexivity].
    pose proof (updateVal_frame (next_i c) (param 0 args) (bumped h c w)) as [Hs _].
    destruct (internals.updateVal _ _ _) as [[[]|e] w1]; cbn [snd] in *;
      [|exact Hs].
    rewrite (proj1 (next_tail_frame (next_i c) w1)). exact Hs.
  - rewrite abort_full. destruct (closures w !! h) as [c|]; [|reflexivity].
    pose proof (updateVal_frame (abort_i c) (param 0 args) (set_isAborted true w))
      as [Hs _].
    destruct (internals.updateVal _ _ _) as [[[]|e] w1]; cbn [snd] in *;
      [|exact Hs].
    rewrite finish_full. exact Hs.
Qed.

Lemma closures_after_next h v w :
  closures (internals.next h v w).2 = closures w
  \/ exists c tl, closures w !! h = Some c
       /\ closures (internals.next h v w).2
          = <[h := Closure (S (next_i c)) (abort_i c)]> (closures w) ++ tl
       /\ length tl <= 1.
Proof.
  rewrite next_full. destruct (isAborted (self w)); [left; reflexivity|].
  destruct (closures w !! h) as [c|] eqn:Hc; [|left; reflexivity].
  right. exists c.
  pose proof (updateVal_frame (next_i c) v (bumped h c w)) as [_ Hcl].
  destruct (internals.updateVal _ _ _) as [[[]|e] w1]; cbn [snd] in *.
  - destruct (next_tail_frame (next_i c) w1) as (_ & _ & [E|E]).
    + exists []. rewrite E, Hcl, app_nil_r. repeat split; simpl; lia.
    + exists [Closure (S (next_i c)) (S (next_i c))]. rewrite E, Hcl.
      repeat split; simpl; lia.
  - exists []. rewrite Hcl, app_nil_r. repeat split; simpl; lia.
Qed.

Lemma closures_after_abort h v w :
  closures (internals.abort h v w).2 = closures w.
Proof.
  rewrite abort_full. destruct (closures w !! h) as [c|]; [|reflexivity].
  pose proof (updateVal_frame (abort_i c) v (set_isAborted true w)) as [_ Hcl].
  destruct (internals.updateVal _ _ _) as [[[]|e] w1]; cbn [snd] in *;
    [|exact Hcl].
  rewrite finish_full. exact Hcl.
Qed.

Lemma closures_after_invoke c w :
  closures (invoke c w).2 = closures w
  \/ (exists x, closures (invoke c w).2 = closures w ++ [x])
  \/ exists h cl tl, closures w !! h = Some cl
       /\ closures (invoke c w).2
          = <[h := Closure (S (next_i cl)) (abort_i cl)]> (closures w) ++ tl
       /\ length tl <= 1.
Proof.
  destruct c as [v args]. destruct v; try (left; reflexivity).
  - change (invoke _ w)
      with (iterate (param 0 args) (param 1 args) (param 2 args) w).
    destruct (valid_call (param 0 args) (param 1 args) (param 2 args)) eqn:Hv.
    + destruct (valid_call_array _ _ _ Hv) as (a & -> & Hf & Hd).
      rewrite iterate_valid by assumption. cbv zeta.
      case_decide; [right; left; eexists | left]; reflexivity.
    + rewrite (iterate_rejected _ _ _ _ Hv). left. reflexivity.
  - change (invoke _ w) with (internals.next h (param 0 args) w).
    destruct (closures_after_next h (param 0 args) w) as [E|(cl & tl & H)];
      [left; exact E|].
    right. right. exists h, cl, tl. exact H.
  - change (invoke _ w) with (internals.abort h (param 0 args) w).
    left. apply closures_after_abort.
Qed.

(** X4.  No call loses or renumbers a closure.  After any call, of a
    handle, of [iterate] or of anything else, every closure made before is
    still there under its number; the index of its [abort] is the one it was
    made with, and the index of its [next] is the same or one more.  A call
    makes at most one new closure. *)
Theorem closures_only_grow (c : call) (w : world) (h : hid) (cl : closure) :
  closures w !! h = Some cl ->
  length (closures w) <= length (closures (invoke c w).2)
    <= S (length (closures w))
  /\ exists cl', closures (invoke c w).2 !! h = Some cl'
       /\ abort_i cl' = abort_i cl
       /\ (next_i cl' = next_i cl \/ next_i cl' = S (next_i cl)).
Proof.
  intros Hh.
  assert (Hlt : h < length (closures w)) by (eapply lookup_lt_Some; exact Hh).
  destruct (closures_after_invoke c w) as [E|[[x E]|(h0 & c0 & tl & Hc0 & E & Htl)]];
    rewrite E.
  - split; [lia|]. exists cl. split; [exact Hh|]. split; [reflexivity | left; reflexivity].
  - rewrite length_app. simpl. split; [lia|]. exists cl.
    rewrite lookup_app_l by exact Hlt.
    split; [exact Hh|]. split; [reflexivity | left; reflexivity].
  - rewrite length_app, length_insert. split; [lia|].
    rewrite lookup_app_l by (rewrite length_insert; exact Hlt).
    destruct (decide (h0 = h)) as [Heq|Hne].
    + subst h0. rewrite list_lookup_insert_eq by exact Hlt.
      assert (X : Some c0 = Some cl) by exact (eq_trans (eq_sym Hc0) Hh).
      injection X as ->.
      eexists. split; [reflexivity|]. split; [reflexivity | right; reflexivity].
    + rewrite list_lookup_insert_ne by exact Hne.
      exists cl. split; [exact Hh|]. split; [reflexivity | left; reflexivity].
Qed.

Lemma closures_only_grow_witness :
  closures Stale.second_run !! 0 = Some (Closure 0 0)
  /\ exists cl', closures (invoke (Call (VNext 0) [VNum 99]) Stale.second_run).2 !! 0
                 = Some cl'
       /\ abort_i cl' = 0.
Proof.
  assert (H : closures Stale.second_run !! 0 = Some (Closure 0 0)) by reflexivity.
  split; [exact H|].
  destruct (closures_only_grow (Call (VNext 0) [VNum 99]) Stale.second_run 0 _ H)
    as (_ & cl' & E & Ha & _).
  exists cl'. split; [exact E | exact Ha].
Defined.

Lemma array_get_set_eq arr i v : array_get (array_set arr i v) i = v.
Proof.
  unfold array_get, array_set. case_decide as Hi.
  - rewrite list_lookup_insert_eq by exact Hi. reflexivity.
  - rewrite lookup_app_r by lia.
    rewrite lookup_app_r by (rewrite length_replicate; lia).
    rewrite length_replicate, Nat.sub_diag. reflexivity.
Qed.

Lemma array_get_set_ne arr i j v :
  i <> j -> array_get (array_set arr i v) j = array_get arr j.
Proof.
  intros Hne. unfold array_get, array_set. case_decide as Hi.
  - rewrite list_lookup_insert_ne by exact Hne. reflexivity.
  - destruct (decide (j < length arr)) as [Hj|Hj].
    + rewrite lookup_app_l by exact Hj. reflexivity.
    + rewrite (lookup_ge_None_2 arr j) by lia.
      rewrite lookup_app_r by lia.
      destruct (decide (j - length arr < i - length arr)) as [Hlt|Hge].
      * rewrite lookup_app_l by (rewrite length_replicate; exact Hlt).
        rewrite lookup_replicate_2 by exact Hlt. reflexivity.
      * rewrite lookup_app_r by (rewrite length_replicate; lia).
        rewrite length_replicate.
        destruct (j - length arr - (i - length arr)) as [|m] eqn:E; [lia|].
        reflexivity.
Qed.

Lemma updateVal_heap_frame i v w b :
  items (self w) <> Some b ->
  heap (internals.updateVal i v w).2 !! b = heap w !! b.
Proof.
  intros Hb. rewrite updateVal_full. case_decide; [reflexivity|].
  destruct (items (self w)) as [a|]; [|reflexivity].
  unfold written. simpl. apply lookup_insert_ne. congruence.
Qed.

Lemma iterate_heap its f d w : heap (iterate its f d w).2 = heap w.
Proof.
  destruct (valid_call its f d) eqn:Hv.
  - destruct (valid_call_array its f d Hv) as (a & -> & Hf & Hd).
    rewrite iterate_valid by assumption. cbv zeta. case_decide; reflexivity.
  - rewrite (iterate_rejected its f d _ Hv). reflexivity.
Qed.

(** X5.  A call writes to no array other than the one in [internals.items]
    at the time of the call: every other array of the heap, the array of an
    earlier run among them, is after the call what it was before. *)
Theorem only_items_is_written (c : call) (w : world) (b : loc) :
  items (self w) <> Some b ->
  heap (invoke c w).2 !! b = heap w !! b.
Proof.
  intros Hb. destruct c as [v args]. destruct v; try reflexivity.
  - change (invoke _ w)
      with (iterate (param 0 args) (param 1 args) (param 2 args) w).
    rewrite iterate_heap. reflexivity.
  - change (invoke _ w) with (internals.next h (param 0 args) w).
    rewrite next_full. destruct (isAborted (self w)); [reflexivity|].
    destruct (closures w !! h) as [cl|]; [|reflexivity].
    pose proof (updateVal_heap_frame (next_i cl) (param 0 args) (bumped h cl w) b Hb)
      as Hh.
    destruct (internals.updateVal _ _ _) as [[[]|e] w1]; cbn [snd] in *;
      [|exact Hh].
    rewrite (proj1 (proj2 (next_tail_frame (next_i cl) w1))). exact Hh.
  - change (invoke _ w) with (internals.abort h (param 0 args) w).
    rewrite abort_full. destruct (closures w !! h) as [cl|]; [|reflexivity].
    pose proof (updateVal_heap_frame (abort_i cl) (param 0 args)
                  (set_isAborted true w) b Hb) as Hh.
    destruct (internals.updateVal _ _ _) as [[[]|e] w1]; cbn [snd] in *;
      [|exact Hh].
    rewrite finish_full. exact Hh.
Qed.

Lemma only_items_is_written_witness :
  items (self Stale.second_run) <> Some 0
  /\ heap (invoke (Call (VAbort 0) [VNum 99]) Stale.second_run).2 !! 0
     = Some [VNum 1; VNum 2; VNum 3].
Proof.
  assert (H : items (self Stale.second_run) <> Some 0) by discriminate.
  split; [exact H|].
  exact (eq_trans
           (only_items_is_written (Call (VAbort 0) [VNum 99]) Stale.second_run 0 H)
           eq_refl).
Defined.

Lemma updateVal_element_frame i v w a j :
  items (self w) = Some a -> i <> j ->
  array_get (array_at (internals.updateVal i v w).2 a) j
  = array_get (array_at w a) j.
Proof.
  intros Ha Hne. rewrite (updateVal_eq a) by exact Ha. cbn [snd].
  rewrite array_at_stored. case_decide; [reflexivity|].
  apply array_get_set_ne. exact Hne.
Qed.

Lemma next_tail_array i w1 a : array_at (next_tail i w1).2 a = array_at w1 a.
Proof.
  apply array_at_heap. apply next_tail_frame.
Qed.

(** X6.  A handle touches one element at most, the one of its own index:
    after a call of [next], every position other than the index [next] held
    before the call reads as before, and after a call of [abort] every
    position other than the index [abort] was made for, whatever the state
    and however the call ends. *)
Theorem handle_touches_its_index_only (h : hid) (c : closure) (a : loc)
    (args : list value) (w : world) (j : nat) :
  closures w !! h = Some c ->
  items (self w) = Some a ->
  (j <> next_i c ->
   array_get (array_at (invoke (Call (VNext h) args) w).2 a) j
   = array_get (array_at w a) j)
  /\ (j <> abort_i c ->
      array_get (array_at (invoke (Call (VAbort h) args) w).2 a) j
      = array_get (array_at w a) j).
Proof.
  intros Hc Ha.
  change (invoke (Call (VNext h) args) w) with (internals.next h (param 0 args) w).
  change (invoke (Call (VAbort h) args) w) with (internals.abort h (param 0 args) w).
  split; intros Hj.
  - rewrite next_full. destruct (isAborted (self w)); [reflexivity|].
    rewrite Hc.
    pose proof (updateVal_element_frame (next_i c) (param 0 args) (bumped h c w) a j
                  Ha ltac:(congruence)) as Hf.
    destruct (internals.updateVal _ _ _) as [[[]|e] w1]; cbn [snd] in *;
      [|exact Hf].
    rewrite next_tail_array. exact Hf.
  - rewrite abort_full, Hc.
    pose proof (updateVal_element_frame (abort_i c) (param 0 args)
                  (set_isAborted true w) a j Ha ltac:(congruence)) as Hf.
    destruct (internals.updateVal _ _ _) as [[[]|e] w1]; cbn [snd] in *;
      [|exact Hf].
    rewrite finish_full. exact Hf.
Qed.

Lemma handle_touches_its_index_only_witness :
  (closures Stale.second_run !! 0 = Some (Closure 0 0)
   /\ items (self Stale.second_run) = Some 1)
  /\ array_get (array_at (invoke (Call (VNext 0) [VNum 99]) Stale.second_run).2 1) 2
     = VNum 30.
Proof.
  assert (H1 : closures Stale.second_run !! 0 = Some (Closure 0 0)) by reflexivity.
  assert (H2 : items (self Stale.second_run) = Some 1) by reflexivity.
  split; [split; assumption|].
  destruct (handle_touches_its_index_only 0 _ 1 [VNum 99] Stale.second_run 2 H1 H2)
    as [E _].
  rewrite E by discriminate. reflexivity.
Defined.

(** X7.  What [updateVal] stores is what the module reads back.  After
    [updateVal(i, v)] with [v] not [undefined], [internals.items[i]] is [v],
    inside the array or past its end; every other position reads as before,
    and [internals.items.length] is the old length or [i + 1], whichever is
    larger. *)
Theorem stored_value_is_read (i : nat) (v : value) (a : loc) (w : world) :
  items (self w) = Some a ->
  v <> VUndefined ->
  let w' := (internals.updateVal i v w).2 in
  internals.items_get i w' = (Ok v, w')
  /\ (forall j, j <> i ->
        (internals.items_get j w').1 = (internals.items_get j w).1)
  /\ internals.items_length w' = (Ok (Nat.max (length (array_at w a)) (S i)), w').
Proof.
  intros Ha Hv. cbv zeta. rewrite (updateVal_eq a) by exact Ha. cbn [snd].
  set (w' := stored a i v w).
  assert (Hs : items (self w') = Some a) by (unfold w'; rewrite stored_self; exact Ha).
  assert (Harr : array_at w' a = array_set (array_at w a) i v).
  { unfold w'. rewrite array_at_stored. case_decide; [contradiction | reflexivity]. }
  assert (Hget : forall j u b, items (self u) = Some b ->
            internals.items_get j u = (Ok (array_get (array_at u b) j), u)).
  { intros j u b Hb. unfold internals.items_get. js_simpl. rewrite Hb. reflexivity. }
  split; [|split].
  - rewrite (Hget i w' a Hs), Harr, array_get_set_eq. reflexivity.
  - intros j Hj. rewrite (Hget j w' a Hs), (Hget j w a Ha), Harr. cbn [fst].
    rewrite array_get_set_ne by congruence. reflexivity.
  - unfold internals.items_length. js_simpl. rewrite Hs. unfold gets.
    rewrite Harr, array_set_length. case_decide; do 3 f_equal; lia.
Qed.

Lemma stored_value_is_read_witness :
  (items (self Stale.second_run) = Some 1 /\ VNum 7 <> VUndefined)
  /\ internals.items_get 5 (internals.updateVal 5 (VNum 7) Stale.second_run).2
     = (Ok (VNum 7), (internals.updateVal 5 (VNum 7) Stale.second_run).2)
  /\ (internals.items_get 4 (internals.updateVal 5 (VNum 7) Stale.second_run).2).1
     = Ok VUndefined.
Proof.
  assert (H1 : items (self Stale.second_run) = Some 1) by reflexivity.
  assert (H2 : VNum 7 <> VUndefined) by discriminate.
  split; [split; assumption|].
  destruct (stored_value_is_read 5 (VNum 7) 1 Stale.second_run H1 H2) as (E1 & E2 & _).
  split; [exact E1|]. rewrite E2 by discriminate. reflexivity.
Defined.

(** *** The end of the array *)

(** X8.  A [next] whose index is the last one, or lies past the end, ends
    in [done] and never in [fn], whatever it is given and whatever [fn] is;
    its index goes up by one all the same.  When it is given a value the
    array has length [index + 1] afterwards, so a value given past the end
    makes the array longer. *)
Theorem next_at_the_end_calls_done (h : hid) (c : closure) (a : loc)
    (args : list value) (w : world) :
  isAborted (self w) = false ->
  closures w !! h = Some c ->
  items (self w) = Some a ->
  callable (done (self w)) = true ->
  length (array_at w a) <= S (next_i c) ->
  invoke (Call (VNext h) args) w
  = (Ok (TailDone (done (self w)) (VArr a)),
     stored a (next_i c) (param 0 args) (bumped h c w))
  /\ closures (invoke (Call (VNext h) args) w).2 !! h
     = Some (Closure (S (next_i c)) (abort_i c))
  /\ (param 0 args <> VUndefined ->
      length (array_at (invoke (Call (VNext h) args) w).2 a) = S (next_i c))
  /\ (param 0 args = VUndefined ->
      array_at (invoke (Call (VNext h) args) w).2 a = array_at w a).
Proof.
  intros Hab Hc Ha Hd Hlen.
  change (invoke (Call (VNext h) args) w) with (internals.next h (param 0 args) w).
  set (v := param 0 args).
  set (w1 := stored a (next_i c) v (bumped h c w)).
  assert (Hs1 : self w1 = self w) by (unfold w1; rewrite stored_self; reflexivity).
  assert (Ha1 : array_at w1 a
                = if decide (v = VUndefined) then array_at w a
                  else array_set (array_at w a) (next_i c) v).
  { unfold w1. rewrite array_at_stored. reflexivity. }
  assert (Hl1 : length (array_at w1 a) <= S (next_i c)).
  { rewrite Ha1. case_decide; [exact Hlen|]. rewrite array_set_length.
    case_decide; lia. }
  assert (E : internals.next h v w = (Ok (TailDone (done (self w)) (VArr a)), w1)).
  { rewrite next_full, Hab, Hc.
    rewrite (updateVal_eq a) by exact Ha. fold w1.
    unfold next_tail. rewrite Hs1, Ha.
    destruct (decide (S (next_i c) < length (array_at w1 a))); [lia|].
    rewrite finish_full, Hs1, Hd, Ha. reflexivity. }
  rewrite E. cbn [snd]. split; [reflexivity|]. split; [|split].
  - unfold w1. rewrite stored_closures. simpl.
    apply list_lookup_insert_eq. eapply lookup_lt_Some. exact Hc.
  - intros Hv. rewrite Ha1. case_decide; [contradiction|].
    rewrite array_set_length. case_decide; lia.
  - intros Hv. rewrite Ha1. case_decide; [reflexivity | contradiction].
Qed.

Lemma next_at_the_end_calls_done_witness :
  (isAborted (self Stale.finished) = false
   /\ closures Stale.finished !! 0 = Some (Closure 1 0)
   /\ items (self Stale.finished) = Some 0
   /\ callable (done (self Stale.finished)) = true
   /\ length (array_at Stale.finished 0) <= 2)
  /\ (invoke (Call (VNext 0) [VNum 6]) Stale.finished).1
     = Ok (TailDone (VFun 1) (VArr 0))
  /\ length (array_at (invoke (Call (VNext 0) [VNum 6]) Stale.finished).2 0) = 2.
Proof.
  assert (H1 : isAborted (self Stale.finished) = false) by reflexivity.
  assert (H2 : closures Stale.finished !! 0 = Some (Closure 1 0)) by reflexivity.
  assert (H3 : items (self Stale.finished) = Some 0) by reflexivity.
  assert (H4 : callable (done (self Stale.finished)) = true) by reflexivity.
  assert (H5 : length (array_at Stale.finished 0) <= 2) by (vm_compute; lia).
  split; [repeat split; assumption|].
  destruct (next_at_the_end_calls_done 0 _ 0 [VNum 6] Stale.finished H1 H2 H3 H4 H5)
    as (E1 & _ & E2 & _).
  split; [rewrite E1; reflexivity|]. apply E2. discriminate.
Defined.

(** *** Handles after a rejected call *)

(** X9.  After a call of [iterate] rejected for its [items], every handle
    made before throws: [internals.items] is [null] and the flag has been
    cleared, so [next] goes past its test, increments its index and fails on
    [null]; [abort] sets the flag and fails on [null] when given a value, and
    on calling [done], which is [null] too, when given none. *)
Theorem handles_throw_after_rejected_items (its f d : value) (w : world)
    (h : hid) (c : closure) (args : list value) :
  isArray its = false ->
  closures w !! h = Some c ->
  let w' := (iterate its f d w).2 in
  self w' = Fields None VNull VNull false
  /\ invoke (Call (VNext h) args) w' = (Throw NullAccess, bumped h c w')
  /\ invoke (Call (VAbort h) args) w'
     = (Throw (if decide (param 0 args = VUndefined) then NotAFunction
               else NullAccess),
        set_isAborted true w').
Proof.
  intros Hi Hc. cbv zeta.
  assert (Hv : valid_call its f d = false) by (unfold valid_call; rewrite Hi; reflexivity).
  rewrite (iterate_rejected its f d w Hv). cbn [snd].
  assert (Hr : rejected its f = Fields None VNull VNull false).
  { destruct its; try reflexivity. discriminate Hi. }
  rewrite Hr. set (w' := World _ (heap w) (closures w)).
  split; [reflexivity|].
  change (invoke (Call (VNext h) args) w') with (internals.next h (param 0 args) w').
  change (invoke (Call (VAbort h) args) w') with (internals.abort h (param 0 args) w').
  split.
  - rewrite next_full. cbn [isAborted self w']. change (closures w') with (closures w).
    rewrite Hc. rewrite updateVal_full. case_decide; reflexivity.
  - rewrite abort_full. change (closures w') with (closures w). rewrite Hc.
    rewrite updateVal_full. case_decide; reflexivity.
Qed.

Lemma handles_throw_after_rejected_items_witness :
  (isArray (VNum 5) = false
   /\ closures Stale.first_run !! 0 = Some (Closure 0 0))
  /\ (invoke (Call (VNext 0) [])
        (iterate (VNum 5) (VFun 0) VUndefined Stale.first_run).2).1
     = Throw NullAccess
  /\ (invoke (Call (VAbort 0) [])
        (iterate (VNum 5) (VFun 0) VUndefined Stale.first_run).2).1
     = Throw NotAFunction.
Proof.
  assert (H1 : isArray (VNum 5) = false) by reflexivity.
  assert (H2 : closures Stale.first_run !! 0 = Some (Closure 0 0)) by reflexivity.
  split; [split; assumption|].
  destruct (handles_throw_after_rejected_items (VNum 5) (VFun 0) VUndefined
              Stale.first_run 0 _ [] H1 H2) as (_ & E1 & E2).
  rewrite E1, E2. split; reflexivity.
Defined.

(** X10.  A call of [iterate] rejected for its [fn] has already put its
    array in [internals.items].  A handle made before then writes into that
    array: [next] and [abort] store a supplied value at their index in it,
    and only then throw, since neither [fn] nor [done] is a function. *)
Theorem rejected_fn_leaves_array_installed (a : loc) (xs : list value)
    (f d : value) (w : world) (h : hid) (c : closure) (args : list value) :
  callable f = false ->
  heap w !! a = Some xs ->
  closures w !! h = Some c ->
  let w' := (iterate (VArr a) f d w).2 in
  self w' = Fields (Some a) VNull VNull false
  /\ (invoke (Call (VNext h) args) w').1 = Throw NotAFunction
  /\ array_at (invoke (Call (VNext h) args) w').2 a
     = (if decide (param 0 args = VUndefined) then xs
        else array_set xs (next_i c) (param 0 args))
  /\ (invoke (Call (VAbort h) args) w').1 = Throw NotAFunction
  /\ array_at (invoke (Call (VAbort h) args) w').2 a
     = (if decide (param 0 args = VUndefined) then xs
        else array_set xs (abort_i c) (param 0 args)).
Proof.
  intros Hf Ha Hc. cbv zeta.
  assert (Hv : valid_call (VArr a) f d = false)
    by (unfold valid_call; rewrite Hf; reflexivity).
  rewrite (iterate_rejected _ f d w Hv). cbn [snd]. unfold rejected. rewrite Hf.
  set (w' := World _ (heap w) (closures w)).
  assert (HS : array_at w' a = xs) by (unfold array_at; simpl; rewrite Ha; reflexivity).
  split; [reflexivity|].
  change (invoke (Call (VNext h) args) w') with (internals.next h (param 0 args) w').
  change (invoke (Call (VAbort h) args) w') with (internals.abort h (param 0 args) w').
  set (v := param 0 args).
  assert (N : internals.next h v w'
              = let w1 := stored a (next_i c) v (bumped h c w') in
                (Throw NotAFunction,
                 if decide (S (next_i c) < length (array_at w1 a))
                 then minted (S (next_i c)) w1 else w1)).
  { rewrite next_full. cbn [isAborted self w']. change (closures w') with (closures w).
    rewrite Hc. rewrite (updateVal_eq a) by reflexivity. cbv zeta.
    set (w1 := stored a (next_i c) v (bumped h c w')).
    assert (Hs1 : self w1 = Fields (Some a) VNull VNull false)
      by (unfold w1; rewrite stored_self; reflexivity).
    unfold next_tail. rewrite Hs1. cbn [items].
    case_decide.
    - rewrite iterate_full, Hs1. reflexivity.
    - rewrite finish_full, Hs1. reflexivity. }
  assert (A : internals.abort h v w'
              = (Throw NotAFunction, stored a (abort_i c) v (set_isAborted true w'))).
  { rewrite abort_full. change (closures w') with (closures w). rewrite Hc.
    rewrite (updateVal_eq a) by reflexivity.
    rewrite finish_full, stored_self. reflexivity. }
  rewrite N, A. cbv zeta. cbn [fst snd].
  split; [reflexivity|]. split; [|split; [reflexivity|]].
  - case_decide; [change (array_at (minted _ ?u) a) with (array_at u a)|];
      rewrite array_at_stored;
      change (array_at (bumped h c w') a) with (array_at w' a);
      rewrite HS; reflexivity.
  - rewrite array_at_stored.
    change (array_at (set_isAborted true w') a) with (array_at w' a).
    rewrite HS. reflexivity.
Qed.

Lemma rejected_fn_leaves_array_installed_witness :
  (callable (VNum 5) = false
   /\ heap Stale.first_run !! 1 = Some [VNum 10; VNum 20; VNum 30]
   /\ closures Stale.first_run !! 0 = Some (Closure 0 0))
  /\ (invoke (Call (VNext 0) [VNum 99])
        (iterate (VArr 1) (VNum 5) VUndefined Stale.first_run).2).1
     = Throw NotAFunction
  /\ array_at (invoke (Call (VNext 0) [VNum 99])
                 (iterate (VArr 1) (VNum 5) VUndefined Stale.first_run).2).2 1
     = [VNum 99; VNum 20; VNum 30].
Proof.
  assert (H1 : callable (VNum 5) = false) by reflexivity.
  assert (H2 : heap Stale.first_run !! 1 = Some [VNum 10; VNum 20; VNum 30])
    by reflexivity.
  assert (H3 : closures Stale.first_run !! 0 = Some (Closure 0 0)) by reflexivity.
  split; [repeat split; assumption|].
  destruct (rejected_fn_leaves_array_installed 1 _ (VNum 5) VUndefined
              Stale.first_run 0 _ [VNum 99] H1 H2 H3) as (_ & E1 & E2 & _).
  split; [exact E1|]. rewrite E2. reflexivity.
Defined.

(** *** Answers that come later *)

Lemma invoke_all_cons c cs w :
  invoke_all (c :: cs) w
  = ((invoke c w).1 :: (invoke_all cs (invoke c w).2).1,
     (invoke_all cs (invoke c w).2).2).
Proof.
  cbn [invoke_all]. destruct (invoke c w) as [r w1]. cbn [fst snd].
  destruct (invoke_all cs w1) as [rs w2]. reflexivity.
Qed.

Lemma later_from fv dv a xs r base n : forall i w,
  i + S n = length xs ->
  callable fv = true -> callable dv = true ->
  self w = Fields (Some a) fv dv false ->
  array_at w a = take i (walked r xs) ++ drop i xs ->
  closures w !! (base + i) = Some (Closure i i) ->
  length (closures w) = S (base + i) ->
  (invoke_all (answers_from r xs base i (S n)) w).1
  = answers_end fv dv a xs base i (S n)
  /\ array_at (invoke_all (answers_from r xs base i (S n)) w).2 a = walked r xs
  /\ self (invoke_all (answers_from r xs base i (S n)) w).2
     = Fields (Some a) fv dv false.
Proof.
  induction n as [|n IH]; intros i w Hin Hf Hd Hs Harr Hc Hl.
  all: assert (Hi : i < length xs) by lia.
  all: destruct (lookup_lt_is_Some_2 xs i Hi) as [v Hv].
  all: assert (Hg : array_get xs i = v) by (unfold array_get; rewrite Hv; reflexivity).
  all: unfold answers_from, answers_end; cbn [seq map]; rewrite invoke_all_cons.
  all: change (invoke (Call (VNext (base + i)) (r i (array_get xs i))) w)
         with (internals.next (base + i) (param 0 (r i (array_get xs i))) w).
  all: rewrite (next_eq (base + i) (Closure i i) a)
         by (rewrite ?Hs; try reflexivity; assumption).
  all: cbv zeta; cbn [next_i abort_i]; rewrite Hg.
  all: set (w1 := stored a i (param 0 (r i v)) (bumped (base + i) (Closure i i) w)).
  all: assert (Ha1 : array_at w1 a = take (S i) (walked r xs) ++ drop (S i) xs)
         by (unfold w1; rewrite array_at_stored;
             change (array_at (bumped _ _ w) a) with (array_at w a); rewrite Harr;
             rewrite (mixed_store xs r i v _ Hv); apply mixed_next; exact Hv).
  all: assert (Hs1 : self w1 = self w) by (unfold w1; rewrite stored_self; reflexivity).
  all: rewrite Ha1, mixed_length by lia.
  - destruct (decide (S i < length xs)) as [|_]; [lia|].
    cbn [fst snd invoke_all app]. rewrite Hs. cbn [done].
    split; [reflexivity|]. split; [|rewrite Hs1; exact Hs].
    rewrite Ha1. replace (S i) with (length xs) by lia.
    rewrite drop_all, app_nil_r, take_ge by (rewrite walked_length; lia).
    reflexivity.
  - destruct (decide (S i < length xs)) as [_|]; [|lia].
    cbn [fst snd]. rewrite mixed_get by lia. rewrite Hs, Hl. cbn [fn].
    destruct (IH (S i) (minted (S i) w1)) as (E1 & E2 & E3).
    + lia.
    + exact Hf.
    + exact Hd.
    + change (self (minted (S i) w1)) with (self w1). rewrite Hs1. exact Hs.
    + exact Ha1.
    + unfold minted. simpl. unfold w1. rewrite stored_closures. simpl.
      rewrite lookup_app_r by (rewrite length_insert; lia).
      rewrite length_insert, Hl.
      replace (base + S i - S (base + i)) with 0 by lia. reflexivity.
    + unfold minted. simpl. unfold w1. rewrite stored_closures. simpl.
      rewrite length_app, length_insert, Hl. simpl. lia.
    + unfold answers_from, answers_end in E1, E2, E3.
      cbn [seq map] in E1, E2, E3.
      split; [|split; [exact E2 | exact E3]].
      rewrite E1. cbn [Nat.sub]. rewrite Nat.sub_0_r. cbn [seq map app].
      replace (base + S i) with (S (base + i)) by lia. reflexivity.
Qed.

(** X11.  The step function need not answer at once.  When [fn] returns
    every time without calling anything, and the handle of each index is
    called later from the top level, in order, with the arguments [r j
    xs[j]], each of those calls but the last ends in the call of [fn] for
    the next index, with the original element, and the last ends in the call
    of [done] (of [noop] when [done] was left out); the array then holds
    every replacement passed and the original elements elsewhere, and the
    flag is still [false]. *)
Theorem answers_may_come_later (w : world) (a : loc) (xs : list value)
    (f d : value) (r : nat -> value -> list value) :
  heap w !! a = Some xs ->
  xs <> [] ->
  callable f = true ->
  d = VUndefined \/ callable d = true ->
  let w1 := (iterate (VArr a) f d w).2 in
  let res := invoke_all (answers_from r xs (length (closures w)) 0 (length xs)) w1 in
  res.1 = answers_end f (done_or_noop d) a xs (length (closures w)) 0 (length xs)
  /\ array_at res.2 a = walked r xs
  /\ self res.2 = Fields (Some a) f (done_or_noop d) false.
Proof.
  intros Ha Hne Hf Hd. cbv zeta.
  assert (Hd' : callable (done_or_noop d) = true).
  { unfold done_or_noop. case_decide; [reflexivity|].
    destruct Hd; [contradiction | assumption]. }
  assert (HS : array_at w a = xs) by (unfold array_at; rewrite Ha; reflexivity).
  rewrite iterate_valid by assumption. cbv zeta. rewrite HS.
  destruct (decide (length xs <> 0)) as [Hz|Hz];
    [|destruct xs; [contradiction | simpl in Hz; lia]].
  cbn [snd].
  destruct (length xs) as [|n] eqn:Hlen; [contradiction|].
  apply (later_from f (done_or_noop d) a xs r (length (closures w)) n 0).
  - simpl. congruence.
  - exact Hf.
  - exact Hd'.
  - reflexivity.
  - exact HS.
  - unfold minted. simpl. rewrite lookup_app_r by lia.
    rewrite Nat.add_0_r, Nat.sub_diag. reflexivity.
  - unfold minted. simpl. rewrite length_app. simpl. lia.
Qed.

Lemma answers_may_come_later_witness :
  (heap (init Scenario.heap123) !! 0 = Some [VNum 1; VNum 2; VNum 3]
   /\ [VNum 1; VNum 2; VNum 3] <> []
   /\ callable (VFun 0) = true
   /\ (VUndefined = VUndefined \/ callable VUndefined = true))
  /\ invoke_all [Call (VNext 0) [VNum 7]; Call (VNext 1) []; Call (VNext 2) [VNum 9]]
                (iterate (VArr 0) (VFun 0) VUndefined (init Scenario.heap123)).2
     = ([Ok (TailStep (VFun 0) 1 (VNum 2) (VNext 1));
         Ok (TailStep (VFun 0) 2 (VNum 3) (VNext 2));
         Ok (TailDone VNoop (VArr 0))],
        (invoke_all [Call (VNext 0) [VNum 7]; Call (VNext 1) [];
                     Call (VNext 2) [VNum 9]]
                    (iterate (VArr 0) (VFun 0) VUndefined (init Scenario.heap123)).2).2)
  /\ array_at (invoke_all [Call (VNext 0) [VNum 7]; Call (VNext 1) [];
                           Call (VNext 2) [VNum 9]]
                 (iterate (VArr 0) (VFun 0) VUndefined (init Scenario.heap123)).2).2 0
     = [VNum 7; VNum 2; VNum 9].
Proof.
  assert (H1 : heap (init Scenario.heap123) !! 0 = Some [VNum 1; VNum 2; VNum 3])
    by reflexivity.
  assert (H2 : [VNum 1; VNum 2; VNum 3] <> []) by discriminate.
  assert (H3 : callable (VFun 0) = true) by reflexivity.
  assert (H4 : VUndefined = VUndefined \/ callable VUndefined = true)
    by (left; reflexivity).
  split; [repeat split; assumption|].
  destruct (answers_may_come_later (init Scenario.heap123) 0 _ (VFun 0) VUndefined
              (fun j _ => match j with 0 => [VNum 7] | 1 => [] | _ => [VNum 9] end)
              H1 H2 H3 H4) as (E1 & E2 & _).
  split.
  - apply injective_projections; [exact E1 | reflexivity].
  - exact E2.
Defined.

(** *** The misuse the flag is there for *)

(** X12.  The comment of [isAborted] names the misuse it guards against: a
    step that calls [next.abort()], does not return, and calls [next()].
    When the step at index [k] does that, whatever it passes to the two
    calls, the walk is the one of a step that only aborts: [fn] is called
    for the indices 0 to [k], [done] is called once, with the array as
    [abort] left it, and the call of [next] changes nothing. *)
Theorem next_after_abort_in_one_step (prog : nat -> list value -> list call)
    (r : nat -> value -> list value) (ab nx : value -> list value) (f d : nat)
    (w : world) (a : loc) (xs : list value) (k fuel : nat) :
  (forall i v n, i < k -> prog f [VNum (Z.of_nat i); v; n] = [Call n (r i v)]) ->
  (forall v n, prog f [VNum (Z.of_nat k); v; n]
               = [Call (abort_of n) (ab v); Call n (nx v)]) ->
  (forall its, prog d [its] = []) ->
  heap w !! a = Some xs ->
  k < length xs ->
  2 * k + 5 <= fuel ->
  let xk := array_get xs k in
  let delivered :=
    take k (walked r xs) ++ replaced (param 0 (ab xk)) xk :: drop (S k) xs in
  let res := run prog fuel [Call VIterate [VArr a; VFun f; VFun d]] w in
  res.1.1 = step_events (VFun f) xs (length (closures w)) 0 (S k)
              ++ [EvDone (VFun d) (VArr a) delivered]
  /\ res.1.2 = []
  /\ array_at res.2 a = delivered
  /\ closures res.2 !! (length (closures w) + k) = Some (Closure k k).
Proof.
  intros Hp Hab Hd Ha Hk Hfuel. cbv zeta.
  assert (Hne : xs <> []) by (destruct xs; [simpl in Hk; lia | discriminate]).
  set (base := length (closures w)).
  destruct (advance_phase prog f d a xs r base k 0 base _
              ltac:(lia) (at_index_start f d a xs r w Ha)
              ltac:(intros; apply Hp; lia))
    as (w1 & E1 & Hat).
  cbn [Nat.add] in E1, Hat.
  destruct Hat as (Hs & Harr & Hc & Hl & Hb).
  destruct (lookup_lt_is_Some_2 xs k Hk) as [v Hv].
  assert (Hg : array_get xs k = v) by (unfold array_get; rewrite Hv; reflexivity).
  rewrite Hg in *.
  set (w2 := stored a k (param 0 (ab v)) (set_isAborted true w1)).
  set (delivered := take k (walked r xs) ++ replaced (param 0 (ab v)) v :: drop (S k) xs).
  assert (Hfin : array_at w2 a = delivered).
  { unfold w2. rewrite array_at_stored.
    change (array_at (set_isAborted true w1) a) with (array_at w1 a). rewrite Harr.
    rewrite (mixed_store xs r k v _ Hv). rewrite take_take, Nat.min_id. reflexivity. }
  assert (Hab2 : isAborted (self w2) = true).
  { unfold w2. rewrite stored_self. reflexivity. }
  assert (E : run prog (2 * k + 5) [Call VIterate [VArr a; VFun f; VFun d]] w
              = (step_events (VFun f) xs base 0 (S k)
                   ++ [EvDone (VFun d) (VArr a) delivered], [], w2)).
  { replace (2 * k + 5) with (S (2 * k + 4)) by lia.
    rewrite (run_step _ (2 * k + 4) _ _ _ _ _ _ (exec_iterate prog f d a xs w Ha Hne)).
    rewrite run_add. fold base. rewrite E1. cbn [fst snd].
    replace 4 with (S (S (S (S 0)))) by reflexivity.
    rewrite (run_step _ _ _ _ _ _ _ _ (exec_fun prog f _ [] w1)).
    rewrite Hab. cbn [abort_of app].
    assert (X3 : exec prog (Call (VAbort (base + k)) (ab v))
                      [Call (VNext (base + k)) (nx v)] w1
                 = ([EvDone (VFun d) (VArr a) delivered],
                    [Call (VFun d) [VArr a]; Call (VNext (base + k)) (nx v)], w2)).
    { unfold exec. cbn [callee].
      change (invoke _ w1) with (internals.abort (base + k) (param 0 (ab v)) w1).
      rewrite (abort_eq _ (Closure k k) a) by (rewrite ?Hs; try reflexivity; assumption).
      cbn [abort_i]. fold w2. rewrite Hs. cbn [done array_of]. rewrite Hfin.
      reflexivity. }
    rewrite (run_step _ _ _ _ _ _ _ _ X3).
    rewrite (run_step _ _ _ _ _ _ _ _
               (exec_fun prog d [VArr a] [Call (VNext (base + k)) (nx v)] w2)).
    rewrite Hd. cbn [app].
    assert (X4 : exec prog (Call (VNext (base + k)) (nx v)) [] w2 = ([], [], w2)).
    { unfold exec. cbn [callee].
      change (invoke _ w2) with (internals.next (base + k) (param 0 (nx v)) w2).
      rewrite next_aborted by exact Hab2. reflexivity. }
    rewrite (run_step _ _ _ _ _ _ _ _ X4). cbn [run fst snd app].
    unfold step_events. cbn [seq map app]. rewrite Nat.add_0_r.
    reflexivity. }
  replace fuel with (2 * k + 5 + (fuel - (2 * k + 5))) by lia.
  rewrite run_more by (rewrite E; reflexivity).
  rewrite E. cbn [fst snd].
  split; [reflexivity|]. split; [reflexivity|]. split; [exact Hfin|].
  unfold w2. rewrite stored_closures. exact Hc.
Qed.

Lemma next_after_abort_in_one_step_witness :
  ((forall i v n, i < 1 -> Scenario.abort_then_next 0 [VNum (Z.of_nat i); v; n]
                           = [Call n []])
   /\ (forall v n, Scenario.abort_then_next 0 [VNum (Z.of_nat 1); v; n]
                   = [Call (abort_of n) []; Call n []])
   /\ (forall its, Scenario.abort_then_next 1 [its] = [])
   /\ heap (init Scenario.heap123) !! 0 = Some [VNum 1; VNum 2; VNum 3]
   /\ 1 < length [VNum 1; VNum 2; VNum 3]
   /\ 2 * 1 + 5 <= 7)
  /\ (run Scenario.abort_then_next 7 [Call VIterate [VArr 0; VFun 0; VFun 1]]
          (init Scenario.heap123)).1.1
     = [EvStep (VFun 0) 0 (VNum 1) (VNext 0);
        EvStep (VFun 0) 1 (VNum 2) (VNext 1);
        EvDone (VFun 1) (VArr 0) [VNum 1; VNum 2; VNum 3]].
Proof.
  assert (H1 : forall i v n, i < 1 ->
               Scenario.abort_then_next 0 [VNum (Z.of_nat i); v; n] = [Call n []]).
  { intros i v n Hi. destruct i; [reflexivity | lia]. }
  assert (H2 : forall v n, Scenario.abort_then_next 0 [VNum (Z.of_nat 1); v; n]
                           = [Call (abort_of n) []; Call n []]) by reflexivity.
  assert (H3 : forall its, Scenario.abort_then_next 1 [its] = []) by reflexivity.
  assert (H4 : heap (init Scenario.heap123) !! 0 = Some [VNum 1; VNum 2; VNum 3])
    by reflexivity.
  assert (H5 : 1 < length [VNum 1; VNum 2; VNum 3]) by (simpl; lia).
  assert (H6 : 2 * 1 + 5 <= 7) by lia.
  split; [repeat split; assumption|].
  destruct (next_after_abort_in_one_step Scenario.abort_then_next (fun _ _ => [])
              (fun _ => []) (fun _ => []) 0 1 _ 0 _ 1 7 H1 H2 H3 H4 H5 H6)
    as (E & _).
  rewrite E. reflexivity.
Defined.

(** X13.  A call of [iterate] rejected for its [done] has already put its
    array and its [fn] in place, with the flag cleared.  A [next] made
    before, whose index is not the last of that array, then stores a
    supplied value there and calls that [fn] for the next index. *)
Theorem rejected_done_leaves_fn_installed (a : loc) (xs : list value)
    (f d : value) (w : world) (h : hid) (c : closure) (args : list value) :
  callable f = true ->
  d <> VUndefined ->
  callable d = false ->
  heap w !! a = Some xs ->
  closures w !! h = Some c ->
  S (next_i c) < length xs ->
  let w' := (iterate (VArr a) f d w).2 in
  self w' = Fields (Some a) f VNull false
  /\ exists w'',
       invoke (Call (VNext h) args) w'
       = (Ok (TailStep f (S (next_i c)) (array_get xs (S (next_i c)))
                       (VNext (length (closures w)))), w'')
       /\ array_at w'' a
          = (if decide (param 0 args = VUndefined) then xs
             else <[next_i c := param 0 args]> xs).
Proof.
  intros Hf Hdu Hd Ha Hc Hlen. cbv zeta.
  assert (Hv : valid_call (VArr a) f d = false).
  { unfold valid_call. rewrite Hf, Hd. cbn [isArray andb orb].
    rewrite bool_decide_eq_false_2 by exact Hdu. reflexivity. }
  rewrite (iterate_rejected _ f d w Hv). cbn [snd]. unfold rejected. rewrite Hf.
  set (w' := World _ (heap w) (closures w)).
  assert (HS : array_at w' a = xs) by (unfold array_at; simpl; rewrite Ha; reflexivity).
  split; [reflexivity|].
  change (invoke (Call (VNext h) args) w') with (internals.next h (param 0 args) w').
  set (v := param 0 args).
  set (w1 := stored a (next_i c) v (bumped h c w')).
  assert (Hs1 : self w1 = Fields (Some a) f VNull false)
    by (unfold w1; rewrite stored_self; reflexivity).
  assert (Ha1 : array_at w1 a
                = if decide (v = VUndefined) then xs else <[next_i c := v]> xs).
  { unfold w1. rewrite array_at_stored.
    change (array_at (bumped h c w') a) with (array_at w' a). rewrite HS.
    case_decide; [reflexivity|]. apply array_set_inside. lia. }
  assert (Hl1 : length (array_at w1 a) = length xs).
  { rewrite Ha1. case_decide; [reflexivity | apply length_insert]. }
  exists (minted (S (next_i c)) w1). split; [|exact Ha1].
  rewrite next_full. cbn [isAborted self w']. change (closures w') with (closures w).
  rewrite Hc. rewrite (updateVal_eq a) by reflexivity. fold w1.
  unfold next_tail. rewrite Hs1. cbn [items]. rewrite Hl1.
  destruct (decide (S (next_i c) < length xs)) as [_|]; [|lia].
  rewrite iterate_full, Hs1. cbn [items fn]. rewrite Hf.
  assert (Hcl : length (closures w1) = length (closures w)).
  { unfold w1. rewrite stored_closures. simpl. apply length_insert. }
  rewrite Hcl. do 3 f_equal.
  rewrite Ha1. case_decide; [reflexivity|].
  unfold array_get. rewrite list_lookup_insert_ne by lia. reflexivity.
Qed.

Lemma rejected_done_leaves_fn_installed_witness :
  (callable (VFun 2) = true
   /\ VNum 5 <> VUndefined
   /\ callable (VNum 5) = false
   /\ heap Stale.first_run !! 1 = Some [VNum 10; VNum 20; VNum 30]
   /\ closures Stale.first_run !! 0 = Some (Closure 0 0)
   /\ 1 < length [VNum 10; VNum 20; VNum 30])
  /\ (invoke (Call (VNext 0) [VNum 99])
        (iterate (VArr 1) (VFun 2) (VNum 5) Stale.first_run).2).1
     = Ok (TailStep (VFun 2) 1 (VNum 20) (VNext 1)).
Proof.
  assert (H1 : callable (VFun 2) = true) by reflexivity.
  assert (H2 : VNum 5 <> VUndefined) by discriminate.
  assert (H3 : callable (VNum 5) = false) by reflexivity.
  assert (H4 : heap Stale.first_run !! 1 = Some [VNum 10; VNum 20; VNum 30])
    by reflexivity.
  assert (H5 : closures Stale.first_run !! 0 = Some (Closure 0 0)) by reflexivity.
  assert (H6 : 1 < length [VNum 10; VNum 20; VNum 30]) by (simpl; lia).
  split; [repeat split; assumption|].
  destruct (rejected_done_leaves_fn_installed 1 _ (VFun 2) (VNum 5) Stale.first_run
              0 _ [VNum 99] H1 H2 H3 H4 H5 H6) as (_ & w'' & E & _).
  rewrite E. reflexivity.
Defined.
